(** * wsl2-port-mapper: the service scanner of [scan_wsl_services.py]

    A shallow embedding of the three parts of the script that carry logic:
    the socket scanner ([scan_instance_ports]), the service classifier
    ([identify_service]) and the external port allocator
    ([assign_external_ports]), together with the conversion of the plan to
    the configuration document done in [main].

    Python integers are unbounded and are modelled as [Z].  Python strings
    are modelled as [string]; the text handled here (the output of [ss] and
    of [wsl]) is taken to be ASCII, so that [str.lower], [str.split] and
    [str.strip] act on the ASCII letters and the ASCII white space only. *)

From Stdlib Require Import ZArith String Ascii List Bool Lia DecimalString.
From stdpp Require Import base decidable option list gmap strings.

Open Scope string_scope.
Open Scope list_scope.
Open Scope Z_scope.

(** ** Python string operations *)

Module PyStr.

(** [c.isspace()] for an ASCII character: tab, line feed, vertical tab, form
    feed, carriage return, the four separators 28..31 and the space. *)
Definition is_space (c : ascii) : bool :=
  let n := nat_of_ascii c in
  ((9 <=? n) && (n <=? 13) || (28 <=? n) && (n <=? 32))%nat.

Definition is_digit (c : ascii) : bool :=
  let n := nat_of_ascii c in ((48 <=? n) && (n <=? 57))%nat.

(** [c.lower()] for an ASCII character. *)
Definition lower_char (c : ascii) : ascii :=
  let n := nat_of_ascii c in
  if ((65 <=? n) && (n <=? 90))%nat then ascii_of_nat (n + 32) else c.

(** [s.lower()] *)
Fixpoint lower (s : string) : string :=
  match s with
  | EmptyString => EmptyString
  | String c r => String (lower_char c) (lower r)
  end.

(** [s.startswith(p)] *)
Fixpoint startswith (p s : string) : bool :=
  match p, s with
  | EmptyString, _ => true
  | String a p', String b s' => Ascii.eqb a b && startswith p' s'
  | String _ _, EmptyString => false
  end.

(** [p in s] for strings: [p] occurs in [s] as a substring. *)
Fixpoint contains (p s : string) : bool :=
  startswith p s ||
  match s with
  | EmptyString => false
  | String _ s' => contains p s'
  end.

(** [s.lstrip()], [s.rstrip()] and [s.strip()] *)
Fixpoint lstrip (s : string) : string :=
  match s with
  | String c r => if is_space c then lstrip r else s
  | EmptyString => EmptyString
  end.

Fixpoint rstrip (s : string) : string :=
  match s with
  | EmptyString => EmptyString
  | String c r =>
      match rstrip r with
      | EmptyString => if is_space c then EmptyString else String c EmptyString
      | r' => String c r'
      end
  end.

Definition strip (s : string) : string := rstrip (lstrip s).

(** [s.split(sep)] for a one-character separator: the fields between the
    occurrences of [sep], empty fields included; never the empty list. *)
Fixpoint split_on (sep : ascii) (s : string) : list string :=
  match s with
  | EmptyString => [EmptyString]
  | String c r =>
      if Ascii.eqb c sep then EmptyString :: split_on sep r
      else match split_on sep r with
           | f :: fs => String c f :: fs
           | [] => [String c EmptyString]
           end
  end.

(** [s.split()]: the maximal runs of characters that are not white space.
    [cur] is the run being read, reversed. *)
Fixpoint split_ws_aux (cur : list ascii) (s : string) : list string :=
  match s with
  | EmptyString =>
      match cur with
      | [] => []
      | _ => [string_of_list_ascii (rev cur)]
      end
  | String c r =>
      if is_space c then
        match cur with
        | [] => split_ws_aux [] r
        | _ => string_of_list_ascii (rev cur) :: split_ws_aux [] r
        end
      else split_ws_aux (c :: cur) r
  end.

Definition split_ws (s : string) : list string := split_ws_aux [] s.

(** [s.rsplit(sep, 1)] when [sep] occurs in [s]: the text before the last
    occurrence and the text after it; [None] when [sep] does not occur
    (Python then returns the one-element list [[s]]). *)
Fixpoint rsplit1 (sep : ascii) (s : string) : option (string * string) :=
  match s with
  | EmptyString => None
  | String c r =>
      match rsplit1 sep r with
      | Some (a, b) => Some (String c a, b)
      | None => if Ascii.eqb c sep then Some (EmptyString, r) else None
      end
  end.

(** The digits of a decimal literal as [int] accepts them: a digit first,
    then digits, each possibly preceded by exactly one underscore.  [acc] is
    the value read so far. *)
Fixpoint int_digits (acc : Z) (s : string) : option Z :=
  match s with
  | EmptyString => Some acc
  | String c r =>
      if is_digit c then int_digits (10 * acc + (Z.of_nat (nat_of_ascii c) - 48)) r
      else if Ascii.eqb c "_" then
        match r with
        | String d r' =>
            if is_digit d
            then int_digits (10 * acc + (Z.of_nat (nat_of_ascii d) - 48)) r'
            else None
        | EmptyString => None
        end
      else None
  end.

Definition int_unsigned (s : string) : option Z :=
  match s with
  | String c _ => if is_digit c then int_digits 0 s else None
  | EmptyString => None
  end.

(** [int(s)]: white space around the literal is ignored, one sign is
    allowed; [None] stands for [ValueError]. *)
Definition int (s : string) : option Z :=
  match strip s with
  | String "+" r => int_unsigned r
  | String "-" r => Z.opp <$> int_unsigned r
  | t => int_unsigned t
  end.

(** [str(n)] for an integer, as an f-string formats it. *)
Definition of_int (n : Z) : string :=
  DecimalString.NilZero.string_of_int (Z.to_int n).

End PyStr.


(** ** Python dictionaries whose iteration order is observed

    A [dict] keeps its keys in the order of their first insertion;
    assigning to a key that is present replaces the value in place. *)

Module PyDict.
Section dict.
Context {K V : Type} `{EqDecision K}.

Definition t := list (K * V).

Definition keys (d : t) : list K := d.*1.
Definition values (d : t) : list V := d.*2.

Fixpoint get (k : K) (d : t) : option V :=
  match d with
  | [] => None
  | (k', v) :: d' => if decide (k' = k) then Some v else get k d'
  end.

(** [d[k] = v] *)
Fixpoint set (k : K) (v : V) (d : t) : t :=
  match d with
  | [] => [(k, v)]
  | (k', v') :: d' =>
      if decide (k' = k) then (k', v) :: d' else (k', v') :: set k v d'
  end.

(** [d[k]] changed in place by [f] (a method call such as [append] on the
    value stored under [k]); the callers below only do this for a key that
    is present. *)
Fixpoint update (k : K) (f : V → V) (d : t) : t :=
  match d with
  | [] => []
  | (k', v') :: d' =>
      if decide (k' = k) then (k', f v') :: d' else (k', v') :: update k f d'
  end.

(** [del d[k]] for a key that is present. *)
Fixpoint del (k : K) (d : t) : t :=
  match d with
  | [] => []
  | (k', v') :: d' => if decide (k' = k) then d' else (k', v') :: del k d'
  end.
End dict.
Arguments t : clear implicits.
End PyDict.

(** ** Service classifier: [identify_service] *)

Definition common_ports : gmap Z string :=
  list_to_map
    [ (22, "SSH"); (80, "HTTP"); (443, "HTTPS"); (3306, "MySQL");
      (5432, "PostgreSQL"); (6379, "Redis"); (6432, "PgBouncer");
      (631, "CUPS"); (53, "DNS"); (3000, "Node.js Dev"); (8000, "HTTP Dev");
      (8080, "HTTP Alt"); (5000, "Flask Dev"); (3001, "React Dev");
      (4000, "GraphQL"); (5678, "Debug"); (7080, "Proxy/LB") ].

Definition identify_service (port : Z) (line : string) : string :=
  match common_ports !! port with
  | Some label => label
  | None =>
      let low := PyStr.lower line in
      if PyStr.contains "sshd" low then "SSH"
      else if PyStr.contains "nginx" low || PyStr.contains "httpd" low
              || PyStr.contains "apache" low then "HTTP"
      else if PyStr.contains "mysql" low || PyStr.contains "mariadb" low
      then "MySQL"
      else if PyStr.contains "postgres" low then "PostgreSQL"
      else if PyStr.contains "redis" low then "Redis"
      else if PyStr.contains "node" low then "Node.js"
      else if PyStr.contains "python" low then "Python"
      else if PyStr.contains "code" low then "VS Code"
      else if ((2000 <=? port) && (port <=? 2299))%Z then "SSH Alt"
      else if ((3000 <=? port) && (port <=? 3999))%Z then "Dev Server"
      else if ((8000 <=? port) && (port <=? 8999))%Z then "HTTP Alt"
      else if ((5000 <=? port) && (port <=? 5999))%Z then "Dev/API"
      else "Unknown"
  end.

(** The classifier as the design document words it: an ordered list of
    process-name tokens with their labels, the first rule with a token that
    occurs in the lower-cased row wins; then an ordered list of port ranges. *)
Definition text_rules : list (list string * string) :=
  [ (["sshd"], "SSH"); (["nginx"; "httpd"; "apache"], "HTTP");
    (["mysql"; "mariadb"], "MySQL"); (["postgres"], "PostgreSQL");
    (["redis"], "Redis"); (["node"], "Node.js"); (["python"], "Python");
    (["code"], "VS Code") ].

Definition text_hint (line : string) : option string :=
  snd <$> find (λ rule, existsb (λ tok, PyStr.contains tok (PyStr.lower line))
                                (fst rule)) text_rules.

Definition range_rules : list (Z * Z * string) :=
  [ (2000, 2299, "SSH Alt"); (3000, 3999, "Dev Server");
    (8000, 8999, "HTTP Alt"); (5000, 5999, "Dev/API") ].

Definition range_guess (port : Z) : string :=
  default "Unknown"
    (snd <$> find (λ r, ((r.1.1 <=? port) && (port <=? r.1.2))%Z) range_rules).

(** ** Socket scanner: [scan_instance_ports] *)

Record PortInfo := {
  pi_port : Z;
  pi_protocol : string;
  pi_address : string;
  pi_service_type : string;
  pi_raw_line : string
}.

Record InstanceInfo := {
  ii_instance : string;
  ii_accessible : bool;
  ii_ports : list PortInfo;
  ii_services : gmap Z (gset string);
  ii_error : option string
}.

(** The part of [subprocess.CompletedProcess] that the scanner reads. *)
Record CompletedProcess := {
  returncode : Z;
  stdout : string;
  stderr : string
}.

(** One pass of the parsing loop over a row of the listing: [None] where the
    loop body reaches a [continue], the record it appends otherwise. *)
Definition parse_line (line : string) : option PortInfo :=
  if negb (PyStr.contains "LISTEN" line) then None
  else
    let parts := PyStr.split_ws line in
    if (length parts <? 4)%nat then None
    else
      match parts !! 3%nat with
      | None => None
      | Some local_addr =>
          if negb (PyStr.contains ":" local_addr) then None
          else
            match PyStr.rsplit1 ":" local_addr with
            | None => None
            | Some (addr, port_str) =>
                match PyStr.int port_str with
                | None => None
                | Some port =>
                    if PyStr.startswith "127.0.0" addr
                       || PyStr.startswith "::1" addr
                    then None
                    else
                      Some {| pi_port := port;
                              pi_protocol := "tcp";
                              pi_address := addr;
                              pi_service_type := identify_service port line;
                              pi_raw_line := PyStr.strip line |}
                end
            end
      end.

(** The deduplication loop: [unique_ports] is keyed by port, and a port
    already present keeps its first record. *)
Definition dedup_step (unique_ports : PyDict.t Z PortInfo) (port_info : PortInfo)
  : PyDict.t Z PortInfo :=
  let port := pi_port port_info in
  if decide (port ∈ PyDict.keys unique_ports) then unique_ports
  else PyDict.set port port_info unique_ports.

Definition dedup_ports (ports : list PortInfo) : list PortInfo :=
  PyDict.values (foldl dedup_step [] ports).

(** [port_services[port].append(service_type)] over the appended records,
    then [list(set(...))] per port: the set of labels seen for the port. *)
Definition summarize (ports : list PortInfo) : gmap Z (gset string) :=
  foldl (λ m port_info,
           <[pi_port port_info :=
               default ∅ (m !! pi_port port_info) ∪ {[pi_service_type port_info]}]> m)
        ∅ ports.

Definition scan_instance_ports (instance : string) (result : CompletedProcess)
  : InstanceInfo :=
  if negb (returncode result =? 0)%Z then
    {| ii_instance := instance;
       ii_accessible := false;
       ii_ports := [];
       ii_services := ∅;
       ii_error := Some ("Failed to access (exit " +:+ PyStr.of_int (returncode result)
                         +:+ "): " +:+ PyStr.strip (stderr result)) |}
  else
    let lines := tail (PyStr.split_on "010" (PyStr.strip (stdout result))) in
    let appended := omap parse_line lines in
    {| ii_instance := instance;
       ii_accessible := true;
       ii_ports := dedup_ports appended;
       ii_services := summarize appended;
       ii_error := None |}.

(** ** External port allocator: [assign_external_ports] *)

Record Mapping := {
  m_name : string;
  m_distro : string;
  m_protocol : string;
  m_port : Z;
  m_internal_port : Z;
  m_firewall : string;
  m_listen_address : string;
  m_service_type : string;
  m_original_address : string
}.

(** An entry of a [conflicts] list. *)
Record Claimant := {
  c_instance : string;
  c_internal_port : Z;
  c_service_type : string
}.

(** The seven running integers of the allocator. *)
Record Counters := {
  ssh_external : Z;
  http_external : Z;
  https_external : Z;
  mysql_external : Z;
  postgres_external : Z;
  redis_external : Z;
  dev_external : Z
}.

Definition initial_counters : Counters :=
  {| ssh_external := 2201; http_external := 8081; https_external := 8443;
     mysql_external := 3307; postgres_external := 5433;
     redis_external := 6380; dev_external := 9001 |}.

(** The branch of the [if]/[elif] chain that a record takes. *)
Inductive Rule :=
  | RuleSSH | RuleHTTP | RuleHTTPS | RuleMySQL | RulePostgres | RuleRedis
  | RuleDev | RuleOther.

Definition select_rule (service_type : string) (internal_port : Z) : Rule :=
  if decide (service_type = "SSH" ∨ internal_port = 22) then RuleSSH
  else if decide (service_type ∈ ["HTTP"; "HTTP Alt"] ∧ internal_port = 80)
  then RuleHTTP
  else if decide (service_type = "HTTPS" ∧ internal_port = 443) then RuleHTTPS
  else if decide (service_type = "MySQL" ∧ internal_port = 3306) then RuleMySQL
  else if decide (service_type = "PostgreSQL" ∧ internal_port = 5432)
  then RulePostgres
  else if decide (service_type = "Redis" ∧ internal_port = 6379) then RuleRedis
  else if decide (service_type ∈ ["Dev Server"; "Node.js Dev"; "Flask Dev"])
  then RuleDev
  else RuleOther.

(** [while external_port in used_external_ports: external_port += 1].  Every
    turn of the loop meets another member of the finite set, so it makes at
    most [size used_external_ports] turns; [next_free_spec] below shows that
    this many turns always reach the exit of the loop. *)
Fixpoint next_free_from (turns : nat) (used_external_ports : gset Z)
    (external_port : Z) : Z :=
  match turns with
  | O => external_port
  | S turns' =>
      if decide (external_port ∈ used_external_ports)
      then next_free_from turns' used_external_ports (external_port + 1)
      else external_port
  end.

Definition next_free (used_external_ports : gset Z) (external_port : Z) : Z :=
  next_free_from (size used_external_ports) used_external_ports external_port.

(** The external port that the branch computes. *)
Definition external_for (rule : Rule) (c : Counters)
    (used_external_ports : gset Z) (internal_port : Z) : Z :=
  match rule with
  | RuleSSH => ssh_external c
  | RuleHTTP => http_external c
  | RuleHTTPS => https_external c
  | RuleMySQL => mysql_external c
  | RulePostgres => postgres_external c
  | RuleRedis => redis_external c
  | RuleDev => dev_external c
  | RuleOther => next_free used_external_ports (9000 + internal_port mod 1000)
  end.

(** The counters after the branch: the one it read is incremented. *)
Definition bump (rule : Rule) (c : Counters) : Counters :=
  match rule with
  | RuleSSH =>
      {| ssh_external := ssh_external c + 1; http_external := http_external c;
         https_external := https_external c; mysql_external := mysql_external c;
         postgres_external := postgres_external c;
         redis_external := redis_external c; dev_external := dev_external c |}
  | RuleHTTP =>
      {| ssh_external := ssh_external c; http_external := http_external c + 1;
         https_external := https_external c; mysql_external := mysql_external c;
         postgres_external := postgres_external c;
         redis_external := redis_external c; dev_external := dev_external c |}
  | RuleHTTPS =>
      {| ssh_external := ssh_external c; http_external := http_external c;
         https_external := https_external c + 1; mysql_external := mysql_external c;
         postgres_external := postgres_external c;
         redis_external := redis_external c; dev_external := dev_external c |}
  | RuleMySQL =>
      {| ssh_external := ssh_external c; http_external := http_external c;
         https_external := https_external c; mysql_external := mysql_external c + 1;
         postgres_external := postgres_external c;
         redis_external := redis_external c; dev_external := dev_external c |}
  | RulePostgres =>
      {| ssh_external := ssh_external c; http_external := http_external c;
         https_external := https_external c; mysql_external := mysql_external c;
         postgres_external := postgres_external c + 1;
         redis_external := redis_external c; dev_external := dev_external c |}
  | RuleRedis =>
      {| ssh_external := ssh_external c; http_external := http_external c;
         https_external := https_external c; mysql_external := mysql_external c;
         postgres_external := postgres_external c;
         redis_external := redis_external c + 1; dev_external := dev_external c |}
  | RuleDev =>
      {| ssh_external := ssh_external c; http_external := http_external c;
         https_external := https_external c; mysql_external := mysql_external c;
         postgres_external := postgres_external c;
         redis_external := redis_external c; dev_external := dev_external c + 1 |}
  | RuleOther => c
  end.

(** The local variables of [assign_external_ports]. *)
Record AllocState := {
  port_assignments : PyDict.t string (list Mapping);
  used_external_ports : gset Z;
  conflicts : gmap Z (list Claimant);
  counters : Counters
}.

Definition initial_state : AllocState :=
  {| port_assignments := []; used_external_ports := ∅; conflicts := ∅;
     counters := initial_counters |}.

Definition claimant_of (instance : string) (port_info : PortInfo) : Claimant :=
  {| c_instance := instance;
     c_internal_port := pi_port port_info;
     c_service_type := pi_service_type port_info |}.

Definition mapping_of (instance : string) (port_info : PortInfo)
    (external_port : Z) : Mapping :=
  {| m_name := instance +:+ " " +:+ pi_service_type port_info;
     m_distro := instance;
     m_protocol := "tcp";
     m_port := external_port;
     m_internal_port := pi_port port_info;
     m_firewall := "local";
     m_listen_address := "0.0.0.0";
     m_service_type := pi_service_type port_info;
     m_original_address := pi_address port_info |}.

(** The external port computed for a record in a given state. *)
Definition external_port_of (st : AllocState) (port_info : PortInfo) : Z :=
  external_for (select_rule (pi_service_type port_info) (pi_port port_info))
    (counters st) (used_external_ports st) (pi_port port_info).

(** The body of the inner loop. *)
Definition assign_port (instance : string) (st : AllocState)
    (port_info : PortInfo) : AllocState :=
  let rule := select_rule (pi_service_type port_info) (pi_port port_info) in
  let external_port := external_port_of st port_info in
  let taken := bool_decide (external_port ∈ used_external_ports st) in
  {| port_assignments :=
       PyDict.update instance
         (λ mappings, mappings ++ [mapping_of instance port_info external_port])
         (port_assignments st);
     used_external_ports :=
       if taken then used_external_ports st
       else {[external_port]} ∪ used_external_ports st;
     conflicts :=
       if taken
       then <[external_port :=
                default [] (conflicts st !! external_port)
                ++ [claimant_of instance port_info]]> (conflicts st)
       else conflicts st;
     counters := bump rule (counters st) |}.

(** The body of the outer loop. *)
Definition assign_instance (st : AllocState) (instance_info : InstanceInfo)
  : AllocState :=
  if negb (ii_accessible instance_info) then st
  else
    let instance := ii_instance instance_info in
    foldl (assign_port instance)
      {| port_assignments := PyDict.set instance [] (port_assignments st);
         used_external_ports := used_external_ports st;
         conflicts := conflicts st;
         counters := counters st |}
      (ii_ports instance_info).

Definition assign_external_ports (all_instances : list InstanceInfo)
  : PyDict.t string (list Mapping) * gmap Z (list Claimant) :=
  let st := foldl assign_instance initial_state all_instances in
  (port_assignments st, conflicts st).

(** ** The configuration document built by [main] *)

(** A value stored in a [port_config] dictionary. *)
Inductive JValue :=
  | JInt (n : Z)
  | JStr (s : string).

Definition port_config_of (mapping : Mapping) : PyDict.t string JValue :=
  let port_config :=
    [ ("port", JInt (m_port mapping));
      ("internal_port", JInt (m_internal_port mapping));
      ("firewall", JStr (m_firewall mapping));
      ("comment",
        JStr (m_service_type mapping +:+ " service (external "
              +:+ PyStr.of_int (m_port mapping) +:+ " -> internal "
              +:+ PyStr.of_int (m_internal_port mapping) +:+ ")")) ] in
  if decide (m_port mapping = m_internal_port mapping) then
    PyDict.set "comment"
      (JStr (m_service_type mapping +:+ " service (same port internally)"))
      (PyDict.del "internal_port" port_config)
  else port_config.

Record InstanceConfig := {
  ic_name : string;
  ic_comment : string;
  ic_ports : list (PyDict.t string JValue)
}.

Definition instance_config_of (entry : string * list Mapping) : InstanceConfig :=
  let ports_for_instance := port_config_of <$> entry.2 in
  {| ic_name := entry.1;
     ic_comment := "Auto-discovered WSL2 instance with "
                   +:+ PyStr.of_int (Z.of_nat (length ports_for_instance))
                   +:+ " services";
     ic_ports := ports_for_instance |}.

Record Config := {
  check_interval_seconds : Z;
  instances : list InstanceConfig
}.

(** The document that [main] writes for the scan results [all_instances]. *)
Definition build_config (all_instances : list InstanceInfo) : Config :=
  {| check_interval_seconds := 5;
     instances := instance_config_of <$> (assign_external_ports all_instances).1 |}.

(** ** Sample inputs *)

Definition nginx_row (port : string) : string :=
  "LISTEN 0 511 0.0.0.0:" +:+ port +:+ " 0.0.0.0:* users:((nginx,pid=7,fd=6))".

(** A listing as [ss -tlnp] prints it: the header line, then the rows. *)
Definition listing (rows : list string) : string :=
  String.concat (String "010" "")
    ("State  Recv-Q Send-Q Local Address:Port Peer Address:Port Process"
     :: rows).

Definition ok (rows : list string) : CompletedProcess :=
  {| returncode := 0; stdout := listing rows; stderr := "" |}.

Definition dnsmasq_row : string :=
  "LISTEN 0      32     127.0.1.1:53     0.0.0.0:*    users:((dnsmasq,pid=412,fd=5))".

Definition cupsd_row : string :=
  "LISTEN 0      128    [::1]:631        [::]:*       users:((cupsd,pid=96,fd=7))".

Definition high_port_row : string :=
  "LISTEN 0      128    0.0.0.0:70000    0.0.0.0:*    users:((beam,pid=51,fd=9))".

Definition postgres_rows : list string :=
  [ "LISTEN 0      244    0.0.0.0:5432     0.0.0.0:*    users:((postgres,pid=88,fd=5))";
    "LISTEN 0      244    [::]:5432        [::]:*       users:((postgres,pid=88,fd=6))" ].

Definition failed : CompletedProcess :=
  {| returncode := 1;
     stdout := "";
     stderr := "There is no distribution with the supplied name."
               +:+ String "010" "" |}.

Definition record (port : Z) (service_type : string) : PortInfo :=
  {| pi_port := port; pi_protocol := "tcp"; pi_address := "0.0.0.0";
     pi_service_type := service_type; pi_raw_line := "" |}.

Definition running (instance : string) (ports : list PortInfo) : InstanceInfo :=
  {| ii_instance := instance; ii_accessible := true; ii_ports := ports;
     ii_services := ∅; ii_error := None |}.

(** An input with an inaccessible instance and a conflict: the port that the
    last branch gives to 9001 is the first value of the Dev counter. *)
Definition dev_clash : list InstanceInfo :=
  [ running "Ubuntu" [record 9001 "Unknown"; record 3000 "Node.js Dev"];
    {| ii_instance := "Debian"; ii_accessible := false; ii_ports := [];
       ii_services := ∅; ii_error := Some "Failed to access (exit 1): " |};
    running "Alpine" [record 22 "SSH"] ].

(** Two instances whose records both take the last branch of the chain and
    have the candidate 9500. *)
Definition fallback_pair : list InstanceInfo :=
  [ running "Ubuntu" [record 1500 "Unknown"];
    running "Debian" [record 9500 "Unknown"] ].

(** ** Notions used to state the properties *)

(** The first record of a list with a given port. *)
Definition first_with_port (port : Z) (ports : list PortInfo) : option PortInfo :=
  head (filter (λ r, pi_port r = port) ports).

(** A dictionary of records keyed by their own port, each port once. *)
Definition keyed_by_port (d : PyDict.t Z PortInfo) : Prop :=
  NoDup (PyDict.keys d) ∧ Forall (λ e, pi_port e.2 = e.1) d.

(** The rows that the parsing loop of [scan_instance_ports] runs over. *)
Definition listing_rows (result : CompletedProcess) : list string :=
  tail (PyStr.split_on "010" (PyStr.strip (stdout result))).

(** The integer that a row reports as its port: the text after the last
    colon of the fourth column, read by [int]. *)
Definition reported_port (line : string) : option Z :=
  local_addr ← PyStr.split_ws line !! 3%nat;
  split ← PyStr.rsplit1 ":" local_addr;
  PyStr.int split.2.

(** The state at the start of the inner loop for an instance: its entry of
    [port_assignments] has just been set to the empty list. *)
Definition enter (st : AllocState) (instance : string) : AllocState :=
  {| port_assignments := PyDict.set instance [] (port_assignments st);
     used_external_ports := used_external_ports st;
     conflicts := conflicts st;
     counters := counters st |}.

(** The mappings that the inner loop appends, in order, for the records
    [ports] of an instance when it starts in state [st]. *)
Fixpoint emitted (instance : string) (st : AllocState) (ports : list PortInfo)
  : list Mapping :=
  match ports with
  | [] => []
  | port_info :: rest =>
      mapping_of instance port_info (external_port_of st port_info)
      :: emitted instance (assign_port instance st port_info) rest
  end.

(** The entries that the outer loop adds to [port_assignments], in order. *)
Fixpoint plan_rows (st : AllocState) (all_instances : list InstanceInfo)
  : list (string * list Mapping) :=
  match all_instances with
  | [] => []
  | info :: rest =>
      if ii_accessible info
      then (ii_instance info,
            emitted (ii_instance info) (enter st (ii_instance info)) (ii_ports info))
           :: plan_rows (assign_instance st info) rest
      else plan_rows st rest
  end.

(** The instances that the outer loop does not skip. *)
Definition reachable (all_instances : list InstanceInfo) : list InstanceInfo :=
  filter (λ info, ii_accessible info = true) all_instances.

(** The candidate of the last branch of the chain. *)
Definition candidate (port_info : PortInfo) : Z := 9000 + pi_port port_info mod 1000.

(** A record that takes the last branch of the chain. *)
Definition takes_fallback (port_info : PortInfo) : Prop :=
  select_rule (pi_service_type port_info) (pi_port port_info) = RuleOther.

(** No recorded claimant is a record of the last branch. *)
Definition claimants_counter_based (conflicts : gmap Z (list Claimant)) : Prop :=
  ∀ external_port claimants c,
    conflicts !! external_port = Some claimants → c ∈ claimants →
    select_rule (c_service_type c) (c_internal_port c) ≠ RuleOther.

(** What a plan row says of the records of its instance. *)
Definition row_view (row : string * list Mapping)
  : string * list (string * Z * string * string) :=
  (row.1, (λ m, (m_distro m, m_internal_port m, m_service_type m,
                 m_original_address m)) <$> row.2).

Definition instance_view (info : InstanceInfo)
  : string * list (string * Z * string * string) :=
  (ii_instance info,
   (λ r, (ii_instance info, pi_port r, pi_service_type r, pi_address r))
   <$> ii_ports info).

(** The external ports of a plan row. *)
Definition row_ports (row : string * list Mapping) : string * list Z :=
  (row.1, m_port <$> row.2).

(** Every mapping of the plan built so far has "local" for its firewall. *)
Definition plan_local (st : AllocState) : Prop :=
  Forall (Forall (λ m, m_firewall m = "local"))
    (PyDict.values (port_assignments st)).

(** ** Instance enumeration: [get_wsl_instances]

    The function runs [wsl --list --verbose] and decodes its output; the
    model starts from the return code and from the decoded text. *)

(** One pass of the loop over the lines of the listing: [None] where no
    name is appended. *)
Definition instance_of_line (line : string) : option string :=
  let line := PyStr.strip line in
  if decide (line = "") then None
  else
    let parts := PyStr.split_ws line in
    if (3 <=? length parts)%nat then
      let name :=
        if decide (parts !! 0%nat = Some "*")
        then default "" (parts !! 1%nat)
        else default "" (parts !! 0%nat) in
      let name := PyStr.strip name in
      if decide (name ≠ "" ∧ name ≠ "NAME") then Some name else None
    else None.

Definition get_wsl_instances (returncode : Z) (output : string) : list string :=
  if negb (returncode =? 0)%Z then []
  else omap instance_of_line (tail (PyStr.split_on "010" (PyStr.strip output))).

(** ** The figures that [main] reports *)

(** [sorted(ports, key=lambda x: x['port'])]: a stable sort by port,
    written as an insertion sort. *)
Fixpoint insert_by_port (x : PortInfo) (sorted : list PortInfo) : list PortInfo :=
  match sorted with
  | [] => [x]
  | y :: rest =>
      if (pi_port x <? pi_port y)%Z then x :: sorted
      else y :: insert_by_port x rest
  end.

Definition sorted_by_port (ports : list PortInfo) : list PortInfo :=
  foldl (λ sorted x, insert_by_port x sorted) [] ports.

(** [total_mappings]: the records listed in the detailed results. *)
Definition total_mappings (all_instances : list InstanceInfo) : Z :=
  foldl (λ total info,
           if negb (ii_accessible info) then total
           else match ii_ports info with
                | [] => total
                | _ => foldl (λ total _, total + 1) total
                         (sorted_by_port (ii_ports info))
                end)
        0 all_instances.

(** [sum(1 for x in all_instances if x['accessible'])] *)
Definition total_accessible (all_instances : list InstanceInfo) : Z :=
  foldl (λ total info, if ii_accessible info then total + 1 else total)
        0 all_instances.

(** [len(config['instances'])] *)
Definition total_in_config (config : Config) : Z :=
  Z.of_nat (length (instances config)).

(** [sum(len(instance['ports']) for instance in config['instances'])] *)
Definition total_port_mappings (config : Config) : Z :=
  foldl (λ total ic, total + Z.of_nat (length (ic_ports ic))) 0 (instances config).

(** [service_counts]: how many records of accessible instances carry each
    label. *)
Definition service_counts (all_instances : list InstanceInfo) : gmap string Z :=
  foldl (λ counts info,
           if ii_accessible info
           then foldl (λ counts port_info,
                         <[pi_service_type port_info :=
                             default 0 (counts !! pi_service_type port_info) + 1]>
                           counts)
                      counts (ii_ports info)
           else counts)
        ∅ all_instances.

(** The characters of a string. *)
Definition chars (s : string) : list ascii := list_ascii_of_string s.

(** The record that the parsing loop builds from a row, its address and its
    port. *)
Definition record_of (line addr : string) (port : Z) : PortInfo :=
  {| pi_port := port;
     pi_protocol := "tcp";
     pi_address := addr;
     pi_service_type := identify_service port line;
     pi_raw_line := PyStr.strip line |}.

(** The claimant entry that the allocator writes for a mapping. *)
Definition claimant_of_mapping (m : Mapping) : Claimant :=
  {| c_instance := m_distro m;
     c_internal_port := m_internal_port m;
     c_service_type := m_service_type m |}.

(** All the mappings of a plan, row after row. *)
Definition plan_mappings (plan : PyDict.t string (list Mapping)) : list Mapping :=
  mjoin (PyDict.values plan).

(** The mappings of a list that have a given external port. *)
Definition with_port (external_port : Z) (ms : list Mapping) : list Mapping :=
  filter (λ m, m_port m = external_port) ms.

(** An entry of [conflicts]: absent rather than empty. *)
Definition entry_of (claimants : list Claimant) : option (list Claimant) :=
  match claimants with
  | [] => None
  | _ => Some claimants
  end.

(** The mappings emitted so far and the state agree: a port is used exactly
    when a mapping has it, and its claimants are the mappings that have it,
    the first one left out. *)
Definition conflicts_account (emitted_so_far : list Mapping) (st : AllocState)
  : Prop :=
  ∀ external_port,
    (external_port ∈ used_external_ports st
     ↔ with_port external_port emitted_so_far ≠ [])
    ∧ conflicts st !! external_port
      = entry_of (claimant_of_mapping
                  <$> tail (with_port external_port emitted_so_far)).

#[global] Instance rule_eq_dec : EqDecision Rule.
Proof. solve_decision. Defined.

(** The branch that the record of a mapping took. *)
Definition rule_of_mapping (m : Mapping) : Rule :=
  select_rule (m_service_type m) (m_internal_port m).

(** The counter that a branch reads; the last branch reads none. *)
Definition counter_of (rule : Rule) (c : Counters) : Z :=
  match rule with
  | RuleSSH => ssh_external c
  | RuleHTTP => http_external c
  | RuleHTTPS => https_external c
  | RuleMySQL => mysql_external c
  | RulePostgres => postgres_external c
  | RuleRedis => redis_external c
  | RuleDev => dev_external c
  | RuleOther => 0
  end.

(** How many mappings of a list took a given branch. *)
Definition uses_of (rule : Rule) (ms : list Mapping) : Z :=
  Z.of_nat (length (filter (λ m, rule_of_mapping m = rule) ms)).

(** The mappings emitted so far and the counters agree: each counter is its
    initial value plus the number of its uses, and each mapping of a counter
    branch has the initial value plus the number of earlier uses. *)
Definition counters_account (emitted_so_far : list Mapping) (st : AllocState)
  : Prop :=
  (∀ rule, rule ≠ RuleOther →
     counter_of rule (counters st)
     = counter_of rule initial_counters + uses_of rule emitted_so_far)
  ∧ (∀ k m, emitted_so_far !! k = Some m → rule_of_mapping m ≠ RuleOther →
       m_port m
       = counter_of (rule_of_mapping m) initial_counters
         + uses_of (rule_of_mapping m) (take k emitted_so_far)).

(** The fields of a mapping that are fixed by the row it stands in. *)
Definition well_formed_mapping (instance : string) (m : Mapping) : Prop :=
  m_distro m = instance
  ∧ m_name m = instance +:+ " " +:+ m_service_type m
  ∧ m_protocol m = "tcp"
  ∧ m_firewall m = "local"
  ∧ m_listen_address m = "0.0.0.0".

(** The sum of the counts of a table of counts. *)
Definition counts_total (counts : gmap string Z) : Z :=
  map_fold (λ _ count total, count + total) 0 counts.

(** The records of the accessible instances, instance after instance. *)
Definition reachable_ports (all_instances : list InstanceInfo) : list PortInfo :=
  reachable all_instances ≫= ii_ports.

(** What an instance entry of the configuration says of its instance. *)
Definition config_view (ic : InstanceConfig) : string * string * list Z :=
  (ic_name ic, ic_comment ic,
   omap (λ pc, match PyDict.get "internal_port" pc, PyDict.get "port" pc with
               | Some (JInt n), _ => Some n
               | None, Some (JInt n) => Some n
               | _, _ => None
               end) (ic_ports ic)).

(** The labels that the classifier can give. *)
Definition known_labels : list string :=
  [ "SSH"; "HTTP"; "HTTPS"; "MySQL"; "PostgreSQL"; "Redis"; "PgBouncer";
    "CUPS"; "DNS"; "Node.js Dev"; "HTTP Dev"; "HTTP Alt"; "Flask Dev";
    "React Dev"; "GraphQL"; "Debug"; "Proxy/LB"; "Node.js"; "Python";
    "VS Code"; "SSH Alt"; "Dev Server"; "Dev/API"; "Unknown" ].

(** The bounds on the external port of a mapping. *)
Definition port_in_bounds (m : Mapping) : Prop :=
  2201 ≤ m_port m ∧ (rule_of_mapping m = RuleOther → 9000 ≤ m_port m).

(** No counter is below its initial value, and the mappings of the plan
    built so far are within the bounds. *)
Definition ports_bounded (st : AllocState) : Prop :=
  (∀ rule, counter_of rule initial_counters ≤ counter_of rule (counters st))
  ∧ Forall (Forall port_in_bounds) (PyDict.values (port_assignments st)).

(** ** Further sample inputs *)

Definition ipv6_row : string :=
  "LISTEN 0      511    [fe80::1%eth0]:8080    [::]:*    users:((node,pid=9,fd=21))".

Definition ssh_and_web : list InstanceInfo :=
  [ running "Ubuntu" [record 22 "SSH"; record 80 "HTTP"];
    running "Debian" [record 2222 "SSH"];
    running "Alpine" [record 22 "SSH"; record 443 "HTTPS"] ].

(** The output of [wsl --list --verbose] as decoded: lines end with a
    carriage return and a line feed, the default instance is starred. *)
Definition wsl_listing : string :=
  String.concat (String "010" "")
    [ "  NAME      STATE           VERSION" +:+ String "013" "";
      "* Ubuntu    Running         2" +:+ String "013" "";
      "  Debian    Stopped         2" +:+ String "013" "";
      "" ].

(** ** Texts that hold a table of instances

    Used to state what [get_wsl_instances] reads from a text made of a
    first line and of rows with a name, a state and a version, whatever the
    white space around and between the columns. *)

(** A word: not empty, no white space. *)
Definition token (t : string) : Prop :=
  t ≠ "" ∧ Forall (λ c, PyStr.is_space c = false) (chars t).

(** A word of ASCII characters, on which the model of the string operations
    above and Python agree. *)
Definition ascii_word (t : string) : Prop :=
  token t ∧ Forall (λ c, (nat_of_ascii c < 128)%nat) (chars t).

(** White space within a line. *)
Definition blanks (s : string) : Prop :=
  Forall (λ c, PyStr.is_space c = true ∧ c ≠ "010"%char) (chars s).

(** A row of the table and the white space written around its columns:
    before the row, after the star of the default instance, after the name,
    after the state, and after the version. *)
Record WslRow := {
  wr_default : bool;
  wr_name : string;
  wr_state : string;
  wr_version : string;
  wr_lead : string;
  wr_gap_star : string;
  wr_gap_name : string;
  wr_gap_state : string;
  wr_trail : string
}.

Definition well_formed_row (row : WslRow) : Prop :=
  ascii_word (wr_name row) ∧ ascii_word (wr_state row)
  ∧ ascii_word (wr_version row)
  ∧ wr_name row ≠ "NAME" ∧ wr_name row ≠ "*"
  ∧ blanks (wr_lead row) ∧ blanks (wr_trail row)
  ∧ (wr_gap_star row ≠ "" ∧ blanks (wr_gap_star row))
  ∧ (wr_gap_name row ≠ "" ∧ blanks (wr_gap_name row))
  ∧ (wr_gap_state row ≠ "" ∧ blanks (wr_gap_state row)).

(** The columns of a row from the name on, followed by [k]. *)
Definition row_columns (row : WslRow) (k : string) : string :=
  wr_name row +:+ wr_gap_name row +:+ wr_state row +:+ wr_gap_state row
  +:+ wr_version row +:+ k.

(** The columns with the star of the default instance. *)
Definition row_marked (row : WslRow) (k : string) : string :=
  if wr_default row then "*" +:+ wr_gap_star row +:+ row_columns row k
  else row_columns row k.

(** The text of a row, followed by [k]. *)
Definition row_line (row : WslRow) (k : string) : string :=
  wr_lead row +:+ row_marked row k.

(** The rows, each after a line feed, then [final]. *)
Fixpoint rows_text (final : string) (rows : list WslRow) : string :=
  match rows with
  | [] => final
  | row :: rest =>
      String "010" (row_line row (wr_trail row +:+ rows_text final rest))
  end.

(** A text with the first line [header], the rows, and [final] at the end. *)
Definition listing_text (header final : string) (rows : list WslRow) : string :=
  header +:+ rows_text final rows.

(** The text of the rows once the white space that ends the text is gone. *)
Fixpoint rows_trimmed (rows : list WslRow) : string :=
  match rows with
  | [] => ""
  | row :: rest =>
      String "010"
        (row_line row
           (match rest with
            | [] => ""
            | _ => wr_trail row +:+ rows_trimmed rest
            end))
  end.

(** The lines of the rows in that text. *)
Fixpoint rows_lines (rows : list WslRow) : list string :=
  match rows with
  | [] => []
  | row :: rest =>
      row_line row (match rest with [] => "" | _ => wr_trail row end)
      :: rows_lines rest
  end.

(** The rows of the sample listing above. *)
Definition sample_rows : list WslRow :=
  [ {| wr_default := true; wr_name := "Ubuntu"; wr_state := "Running";
       wr_version := "2"; wr_lead := ""; wr_gap_star := " ";
       wr_gap_name := "    "; wr_gap_state := "         ";
       wr_trail := String "013" "" |};
    {| wr_default := false; wr_name := "Debian"; wr_state := "Stopped";
       wr_version := "2"; wr_lead := "  "; wr_gap_star := " ";
       wr_gap_name := "    "; wr_gap_state := "         ";
       wr_trail := "" |} ].

(** * Properties *)

(** ** The classifier *)

Lemma text_hint_none_inv (line : string) :
  text_hint line = None →
  Forall (λ tok, PyStr.contains tok (PyStr.lower line) = false)
    (concat (fst <$> text_rules)).
Proof.
  unfold text_hint, text_rules. simpl.
  repeat match goal with
  | |- context [PyStr.contains ?t ?l] =>
      destruct (PyStr.contains t l) eqn:?; simpl; try discriminate
  end.
  intros _. repeat constructor; assumption.
Qed.

(** C4. The three layers of [identify_service] apply in strict precedence:
    a port of the well-known table gets the table's label whatever the row
    says; otherwise the first matching text rule decides, whatever range the
    port is in; only a row without a hint is labelled by the port ranges.
    In particular port 22 is "SSH" for every row text, 3500 with an empty
    row is "Dev Server" and 9500 with an empty row is "Unknown". *)
Theorem identify_service_precedence (port : Z) (line : string) :
  (∀ label, common_ports !! port = Some label →
            identify_service port line = label) ∧
  (∀ label, common_ports !! port = None → text_hint line = Some label →
            identify_service port line = label) ∧
  (common_ports !! port = None → text_hint line = None →
   identify_service port line = range_guess port) ∧
  identify_service 22 line = "SSH" ∧
  identify_service 3500 "" = "Dev Server" ∧
  identify_service 9500 "" = "Unknown".
Proof.
  repeat split.
  - intros label Htable. unfold identify_service. now rewrite Htable.
  - intros label Htable. unfold identify_service, text_hint, text_rules.
    rewrite Htable. simpl.
    repeat match goal with
    | |- context [PyStr.contains ?t ?l] =>
        destruct (PyStr.contains t l); simpl; try (intros [= <-]; reflexivity)
    end.
  - intros Htable Hhint. apply text_hint_none_inv in Hhint. simpl in Hhint.
    unfold identify_service. rewrite Htable. simpl.
    repeat match goal with
    | H : Forall _ (_ :: _) |- _ => apply Forall_cons in H; destruct H as [-> H]
    end.
    simpl. unfold range_guess, range_rules. simpl.
    repeat (case_match; simpl; try reflexivity).
Qed.

Lemma identify_service_precedence_witness :
  identify_service 22 (nginx_row "22") = "SSH"
  ∧ identify_service 3500 (nginx_row "3500") = "HTTP"
  ∧ identify_service 9500 "" = range_guess 9500.
Proof.
  split; [|split].
  - exact (proj1 (identify_service_precedence 22 (nginx_row "22")) "SSH"
             eq_refl).
  - exact (proj1 (proj2 (identify_service_precedence 3500 (nginx_row "3500")))
             "HTTP" eq_refl eq_refl).
  - exact (proj1 (proj2 (proj2 (identify_service_precedence 9500 "")))
             eq_refl eq_refl).
Defined.

(** ** Ordered dictionaries *)

Section dict_facts.
Context {K V : Type} `{EqDecision K}.
Implicit Types (d : PyDict.t K V) (k : K) (v : V).

Lemma dict_get_None d k : PyDict.get k d = None ↔ k ∉ PyDict.keys d.
Proof.
  unfold PyDict.keys. induction d as [|[k' v'] d IH]; simpl.
  - split; [intros _; apply not_elem_of_nil | done].
  - case_decide as Hk; subst.
    + split; [done | intros Hn; exfalso; apply Hn, elem_of_cons; auto].
    + rewrite IH, not_elem_of_cons.
      split; [intros ?; split; [congruence | done] | intros [_ ?]; done].
Qed.

Lemma dict_set_fresh d k v :
  k ∉ PyDict.keys d → PyDict.set k v d = d ++ [(k, v)].
Proof.
  unfold PyDict.keys. induction d as [|[k' v'] d IH]; simpl; [done|].
  rewrite not_elem_of_cons. intros [Hne Hd].
  case_decide; [congruence|]. now rewrite IH.
Qed.

Lemma dict_get_app d1 d2 k :
  PyDict.get k (d1 ++ d2)
  = match PyDict.get k d1 with
    | Some v => Some v
    | None => PyDict.get k d2
    end.
Proof.
  induction d1 as [|[k' v'] d1 IH]; simpl; [done|]. now case_decide.
Qed.

Lemma dict_update_fresh d k (f : V → V) :
  k ∉ PyDict.keys d → PyDict.update k f d = d.
Proof.
  unfold PyDict.keys. induction d as [|[k' v'] d IH]; simpl; [done|].
  rewrite not_elem_of_cons. intros [Hne Hd].
  case_decide; [congruence|]. now rewrite IH.
Qed.

Lemma dict_update_last d k v (f : V → V) :
  k ∉ PyDict.keys d →
  PyDict.update k f (d ++ [(k, v)]) = d ++ [(k, f v)].
Proof.
  unfold PyDict.keys. induction d as [|[k' v'] d IH]; simpl.
  - intros _. now case_decide.
  - rewrite not_elem_of_cons. intros [Hne Hd].
    case_decide; [congruence|]. now rewrite IH.
Qed.

Lemma dict_values_update_Forall (P : V → Prop) d k (f : V → V) :
  (∀ v, P v → P (f v)) →
  Forall P (PyDict.values d) → Forall P (PyDict.values (PyDict.update k f d)).
Proof.
  intros Hf. unfold PyDict.values.
  induction d as [|[k' v'] d IH]; simpl; [done|].
  rewrite Forall_cons. intros [Hv Hd].
  case_decide; simpl; constructor; auto.
Qed.

Lemma dict_values_set_Forall (P : V → Prop) d k v :
  P v → Forall P (PyDict.values d) → Forall P (PyDict.values (PyDict.set k v d)).
Proof.
  intros Hv. unfold PyDict.values.
  induction d as [|[k' v'] d IH]; simpl; [by repeat constructor|].
  rewrite Forall_cons. intros [Hv' Hd].
  case_decide; simpl; constructor; auto.
Qed.
End dict_facts.

(** ** The scanner *)

Lemma dedup_step_keyed d r : keyed_by_port d → keyed_by_port (dedup_step d r).
Proof.
  intros [Hnd Hk]. unfold dedup_step. case_decide as Hin; [done|].
  rewrite dict_set_fresh by done. split.
  - unfold PyDict.keys. rewrite fmap_app. simpl.
    apply NoDup_app. split_and!; [done| |apply NoDup_singleton].
    intros k Hk1 Hk2%list_elem_of_singleton. now subst.
  - apply Forall_app. split; [done|]. now repeat constructor.
Qed.

Lemma dedup_loop_keyed ports d :
  keyed_by_port d → keyed_by_port (foldl dedup_step d ports).
Proof.
  revert d. induction ports as [|r ports IH]; simpl; [done|].
  intros d Hd. apply IH, dedup_step_keyed, Hd.
Qed.

Lemma dedup_loop_get ports d port :
  PyDict.get port (foldl dedup_step d ports)
  = match PyDict.get port d with
    | Some r => Some r
    | None => first_with_port port ports
    end.
Proof.
  revert d. induction ports as [|r ports IH]; intros d; simpl.
  - now destruct (PyDict.get port d).
  - rewrite IH. unfold dedup_step, first_with_port.
    case_decide as Hin.
    + destruct (PyDict.get port d) eqn:Hget; [done|].
      apply dict_get_None in Hget.
      rewrite filter_cons_False; [done | congruence].
    + rewrite dict_set_fresh, dict_get_app by done. simpl.
      destruct (PyDict.get port d); [done|].
      case_decide as Hp.
      * now rewrite filter_cons_True.
      * now rewrite filter_cons_False.
Qed.

Lemma dedup_loop_values ports d r :
  r ∈ PyDict.values (foldl dedup_step d ports) → r ∈ PyDict.values d ∨ r ∈ ports.
Proof.
  revert d. induction ports as [|x ports IH]; intros d; simpl; [auto|].
  intros [Hr|Hr]%IH; [|right; now apply elem_of_cons; right].
  revert Hr. unfold dedup_step. case_decide; [auto|].
  rewrite dict_set_fresh by done. unfold PyDict.values.
  rewrite fmap_app, elem_of_app. simpl. rewrite list_elem_of_singleton.
  intros [?| ->]; [auto | right; apply elem_of_cons; auto].
Qed.

Lemma keyed_filter_values d port :
  keyed_by_port d →
  filter (λ r, pi_port r = port) (PyDict.values d)
  = option_list (PyDict.get port d).
Proof.
  unfold keyed_by_port.
  induction d as [|[k v] d IH]; [done|].
  change (PyDict.keys ((k, v) :: d)) with (k :: PyDict.keys d).
  change (PyDict.values ((k, v) :: d)) with (v :: PyDict.values d).
  rewrite NoDup_cons, Forall_cons. cbn [fst snd PyDict.get].
  intros [[Hk Hnd] [Hv Hd]]. subst k.
  destruct (decide (pi_port v = port)) as [Hp|Hp].
  - rewrite filter_cons_True by done. subst port.
    rewrite IH by done.
    apply dict_get_None in Hk. now rewrite Hk.
  - rewrite filter_cons_False by done. now apply IH.
Qed.

Lemma dedup_ports_elem (ports : list PortInfo) r :
  r ∈ dedup_ports ports → r ∈ ports.
Proof.
  intros [Hr|Hr]%dedup_loop_values; [|done]. now apply elem_of_nil in Hr.
Qed.

Lemma dedup_ports_first (ports : list PortInfo) port :
  filter (λ r, pi_port r = port) (dedup_ports ports)
  = option_list (first_with_port port ports).
Proof.
  unfold dedup_ports. rewrite keyed_filter_values.
  - now rewrite dedup_loop_get.
  - apply dedup_loop_keyed. split; [apply NoDup_nil_2 | constructor].
Qed.

Lemma keyed_keys_values (d : PyDict.t Z PortInfo) :
  Forall (λ e, pi_port e.2 = e.1) d → pi_port <$> PyDict.values d = PyDict.keys d.
Proof.
  induction 1 as [|[k v] d Hv Hd IH]; [done|].
  change (pi_port v :: (pi_port <$> PyDict.values d) = k :: PyDict.keys d).
  simpl in Hv. now rewrite IH, Hv.
Qed.

Lemma dedup_ports_NoDup (ports : list PortInfo) :
  NoDup (pi_port <$> dedup_ports ports).
Proof.
  unfold dedup_ports.
  destruct (dedup_loop_keyed ports []) as [Hnd Hk];
    [split; [apply NoDup_nil_2 | constructor]|].
  now rewrite keyed_keys_values.
Qed.

Lemma parse_line_inv (line : string) (r : PortInfo) :
  parse_line line = Some r →
  ∃ local_addr addr port_str,
    PyStr.split_ws line !! 3%nat = Some local_addr
    ∧ PyStr.rsplit1 ":" local_addr = Some (addr, port_str)
    ∧ PyStr.int port_str = Some (pi_port r)
    ∧ PyStr.startswith "127.0.0" addr = false
    ∧ PyStr.startswith "::1" addr = false
    ∧ r = {| pi_port := pi_port r; pi_protocol := "tcp"; pi_address := addr;
             pi_service_type := identify_service (pi_port r) line;
             pi_raw_line := PyStr.strip line |}.
Proof.
  unfold parse_line.
  destruct (negb _); [done|].
  destruct (_ <? _)%nat; [done|].
  destruct (_ !! _) as [local_addr|] eqn:H3; [|done].
  destruct (negb _); [done|].
  destruct (PyStr.rsplit1 _ _) as [[addr port_str]|] eqn:Hsplit; [|done].
  destruct (PyStr.int _) as [port|] eqn:Hint; [|done].
  destruct (PyStr.startswith "127.0.0" addr) eqn:H4; [done|].
  destruct (PyStr.startswith "::1" addr) eqn:H6; [done|].
  simpl. intros [= <-]. by exists local_addr, addr, port_str.
Qed.

Lemma parse_line_reported (line : string) (r : PortInfo) :
  parse_line line = Some r → reported_port line = Some (pi_port r).
Proof.
  intros (local_addr & addr & port_str & H3 & Hsplit & Hint & _)%parse_line_inv.
  unfold reported_port. rewrite H3. simpl. now rewrite Hsplit.
Qed.

Lemma scan_ports_parsed (instance : string) (result : CompletedProcess) r :
  r ∈ ii_ports (scan_instance_ports instance result) →
  ∃ line, line ∈ listing_rows result ∧ parse_line line = Some r.
Proof.
  unfold scan_instance_ports. destruct (negb _); simpl.
  - by intros ?%elem_of_nil.
  - intros Hr%dedup_ports_elem. apply list_elem_of_omap in Hr. exact Hr.
Qed.

(** What the address test does drop: a record never carries an address that
    begins with [127.0.0] or with [::1]. *)
Lemma scan_drops_prefixed (instance : string) (result : CompletedProcess) r :
  r ∈ ii_ports (scan_instance_ports instance result) →
  PyStr.startswith "127.0.0" (pi_address r) = false
  ∧ PyStr.startswith "::1" (pi_address r) = false.
Proof.
  intros (line & _ & Hparse)%scan_ports_parsed.
  apply parse_line_inv in Hparse
    as (local_addr & addr & port_str & _ & _ & _ & H4 & H6 & ->).
  done.
Qed.

(** In particular no record is bound to 127.0.0.1 or to ::1, whatever its
    port. *)
Lemma scan_drops_localhost (instance : string) (result : CompletedProcess) r :
  r ∈ ii_ports (scan_instance_ports instance result) →
  pi_address r ≠ "127.0.0.1" ∧ pi_address r ≠ "::1".
Proof.
  intros [H4 H6]%scan_drops_prefixed.
  split; intros Heq; rewrite Heq in *; discriminate.
Qed.

(** C2. The listing of an instance where [dnsmasq] listens on 127.0.1.1, an
    address of the loopback block 127.0.0.0/8, and [cupsd] on the IPv6
    loopback as [ss] prints it: both rows pass the address test, and the
    scan result carries a record for each. *)
Theorem loopback_rows_kept :
  pi_address <$> ii_ports (scan_instance_ports "Ubuntu" (ok [dnsmasq_row; cupsd_row]))
  = ["127.0.1.1"; "[::1]"].
Proof. vm_compute. reflexivity. Qed.

(** C3 as stated does not hold: a row that reports port 70000 is kept. *)
Lemma port_out_of_range :
  ∃ r, r ∈ ii_ports (scan_instance_ports "Ubuntu" (ok [high_port_row]))
       ∧ ¬ (1 ≤ pi_port r ≤ 65535).
Proof.
  eexists. split.
  - vm_compute. apply list_elem_of_here.
  - simpl. lia.
Qed.

(** C3, amended. The port of every record of a scan result is the integer
    that [int] reads after the last colon of the fourth column of one of
    the rows of the listing; the scanner applies no range check of its own,
    so the ports lie in 1..65535 whenever the listing reports only such
    ports. *)
Theorem scanned_port_is_reported (instance : string) (result : CompletedProcess)
    (r : PortInfo) :
  r ∈ ii_ports (scan_instance_ports instance result) →
  (∃ line, line ∈ listing_rows result ∧ reported_port line = Some (pi_port r))
  ∧ ((∀ line port, line ∈ listing_rows result →
                   reported_port line = Some port → 1 ≤ port ≤ 65535) →
     1 ≤ pi_port r ≤ 65535).
Proof.
  intros (line & Hline & Hparse%parse_line_reported)%scan_ports_parsed.
  split; [by exists line | intros Hrange; by apply (Hrange line)].
Qed.

Lemma scanned_port_is_reported_witness :
  ∃ r, r ∈ ii_ports (scan_instance_ports "Ubuntu" (ok postgres_rows))
       ∧ 1 ≤ pi_port r ≤ 65535.
Proof.
  eexists. split; [vm_compute; apply list_elem_of_here|].
  refine (proj2 (scanned_port_is_reported "Ubuntu" (ok postgres_rows) _ _) _).
  - vm_compute. apply list_elem_of_here.
  - intros line port Hline Hport. vm_compute in Hline.
    repeat (apply elem_of_cons in Hline as [->|Hline];
            [vm_compute in Hport; injection Hport as <-; lia|]).
    by apply elem_of_nil in Hline.
Defined.

(** C6. In the result of a successful scan no two records share a port, and
    the records with a given port are: the record built from the first row
    kept by the parsing loop with that port when there is one, none
    otherwise.  Later rows for the port leave no trace. *)
Theorem dedup_first_row_wins (instance : string) (result : CompletedProcess)
    (port : Z) :
  returncode result = 0 →
  let appended := omap parse_line (listing_rows result) in
  let info := scan_instance_ports instance result in
  NoDup (pi_port <$> ii_ports info)
  ∧ filter (λ r, pi_port r = port) (ii_ports info)
    = option_list (first_with_port port appended).
Proof.
  intros Hrc. unfold scan_instance_ports. rewrite Hrc. simpl.
  split; [apply dedup_ports_NoDup | apply dedup_ports_first].
Qed.

Lemma dedup_first_row_wins_witness :
  (pi_address <$> filter (λ r, pi_port r = 5432)
     (ii_ports (scan_instance_ports "Ubuntu" (ok postgres_rows))))
  = ["0.0.0.0"].
Proof.
  rewrite (proj2 (dedup_first_row_wins "Ubuntu" (ok postgres_rows) 5432 eq_refl)).
  vm_compute. reflexivity.
Defined.

(** ** The allocator *)

(** *** The search for a free port *)

Lemma next_free_from_spec (turns : nat) (used : gset Z) (p : Z) :
  (size (filter (λ x, (p ≤ x)%Z) used) ≤ turns)%nat →
  (next_free_from turns used p ∉ used)
  ∧ p ≤ next_free_from turns used p
  ∧ (∀ x, p ≤ x < next_free_from turns used p → x ∈ used).
Proof.
  revert p. induction turns as [|turns IH]; intros p Hsize; simpl.
  - split_and!; [|lia|lia].
    intros Hp. assert (Hin : p ∈ filter (λ x, p ≤ x) used).
    { apply elem_of_filter. split; [lia | done]. }
    assert (Hempty : filter (λ x, p ≤ x) used ≡ ∅).
    { apply size_empty_inv. lia. }
    by apply Hempty, not_elem_of_empty in Hin.
  - case_decide as Hp; [|split_and!; [done | lia | lia]].
    destruct (IH (p + 1)) as (Hfree & Hle & Hbelow).
    + assert (Hsub : filter (λ x, p + 1 ≤ x) used ⊂ filter (λ x, p ≤ x) used).
      { split.
        - intros x [Hx ?]%elem_of_filter. apply elem_of_filter. split; [lia|done].
        - intros Hsup. specialize (Hsup p).
          rewrite !elem_of_filter in Hsup.
          destruct Hsup as [? _]; [split; [lia | done] | lia]. }
      apply subset_size in Hsub. lia.
    + split_and!; [done | lia |].
      intros x Hx. destruct (decide (x = p)) as [->|]; [done|].
      apply Hbelow. lia.
Qed.

(** The loop ends, and ends on the least port from [p] on that is not in
    the set. *)
Lemma next_free_spec (used : gset Z) (p : Z) :
  (next_free used p ∉ used)
  ∧ p ≤ next_free used p
  ∧ (∀ x, p ≤ x < next_free used p → x ∈ used).
Proof.
  apply next_free_from_spec, subseteq_size.
  intros x [_ ?]%elem_of_filter. done.
Qed.

(** *** One record *)

Lemma assign_port_fallback (instance : string) (st : AllocState) (r : PortInfo) :
  takes_fallback r →
  external_port_of st r = next_free (used_external_ports st) (candidate r)
  ∧ (external_port_of st r ∉ used_external_ports st)
  ∧ conflicts (assign_port instance st r) = conflicts st
  ∧ used_external_ports (assign_port instance st r)
    = {[external_port_of st r]} ∪ used_external_ports st.
Proof.
  unfold takes_fallback. intros Hrule.
  assert (Hext : external_port_of st r
                 = next_free (used_external_ports st) (candidate r)).
  { unfold external_port_of. now rewrite Hrule. }
  assert (Hfree : external_port_of st r ∉ used_external_ports st).
  { rewrite Hext. apply next_free_spec. }
  split_and!; [done | done | |]; unfold assign_port; simpl;
    now rewrite bool_decide_eq_false_2.
Qed.

Lemma assign_port_used_mono (instance : string) (st : AllocState) (r : PortInfo) :
  used_external_ports st ⊆ used_external_ports (assign_port instance st r).
Proof.
  unfold assign_port. simpl. case_bool_decide; set_solver.
Qed.

Lemma assign_port_claimants (instance : string) (st : AllocState) (r : PortInfo) :
  claimants_counter_based (conflicts st) →
  claimants_counter_based (conflicts (assign_port instance st r)).
Proof.
  intros Hinv. unfold assign_port. simpl.
  case_bool_decide as Htaken; [|done].
  intros e cl c Hcl Hc.
  destruct (decide (external_port_of st r = e)) as [<-|Hne].
  - rewrite lookup_insert_eq in Hcl. injection Hcl as <-.
    apply elem_of_app in Hc as [Hc| ->%list_elem_of_singleton].
    + destruct (conflicts st !! external_port_of st r) as [cl|] eqn:Hold;
        simpl in Hc; [by eapply Hinv | by apply elem_of_nil in Hc].
    + simpl. intros Hrule.
      by destruct (assign_port_fallback instance st r Hrule) as (_ & ? & _).
  - rewrite lookup_insert_ne in Hcl by done. by eapply Hinv.
Qed.

(** *** The inner loop *)

Lemma assign_ports_used_mono (instance : string) (ports : list PortInfo)
    (st : AllocState) :
  used_external_ports st
  ⊆ used_external_ports (foldl (assign_port instance) st ports).
Proof.
  revert st. induction ports as [|r ports IH]; intros st; simpl; [done|].
  etrans; [apply (assign_port_used_mono instance st r) | apply IH].
Qed.

Lemma assign_ports_claimants (instance : string) (ports : list PortInfo)
    (st : AllocState) :
  claimants_counter_based (conflicts st) →
  claimants_counter_based (conflicts (foldl (assign_port instance) st ports)).
Proof.
  revert st. induction ports as [|r ports IH]; intros st Hst; simpl; [done|].
  by apply IH, assign_port_claimants.
Qed.

Lemma assign_ports_plan (instance : string) (ports : list PortInfo)
    (st : AllocState) (d : PyDict.t string (list Mapping)) (ms : list Mapping) :
  instance ∉ PyDict.keys d →
  port_assignments st = d ++ [(instance, ms)] →
  port_assignments (foldl (assign_port instance) st ports)
  = d ++ [(instance, ms ++ emitted instance st ports)].
Proof.
  intros Hfresh. revert st ms.
  induction ports as [|r ports IH]; intros st ms Hst; simpl.
  - now rewrite app_nil_r.
  - rewrite (IH (assign_port instance st r)
                 (ms ++ [mapping_of instance r (external_port_of st r)])).
    + now rewrite <- app_assoc.
    + unfold assign_port. simpl. rewrite Hst.
      now rewrite dict_update_last.
Qed.

Lemma emitted_lookup (instance : string) (ports : list PortInfo)
    (st : AllocState) (a : nat) (r : PortInfo) :
  ports !! a = Some r →
  emitted instance st ports !! a
  = Some (mapping_of instance r
            (external_port_of (foldl (assign_port instance) st (take a ports)) r)).
Proof.
  revert st a. induction ports as [|x ports IH]; intros st [|a] Hr;
    simpl in *; try done.
  - by injection Hr as ->.
  - by apply IH.
Qed.

Lemma emitted_view (instance : string) (ports : list PortInfo) (st : AllocState) :
  row_view (instance, emitted instance st ports)
  = (instance,
     (λ r, (instance, pi_port r, pi_service_type r, pi_address r)) <$> ports).
Proof.
  unfold row_view. simpl. f_equal.
  revert st. induction ports as [|r ports IH]; intros st; simpl; [done|].
  now rewrite IH.
Qed.

(** *** Instances that are skipped *)

Lemma assign_instance_inaccessible (st : AllocState) (info : InstanceInfo) :
  ii_accessible info = false → assign_instance st info = st.
Proof. intros Hacc. unfold assign_instance. now rewrite Hacc. Qed.

(** C7. A listing command that exits with a status other than zero yields a
    result (the scanner is a total function of the outcome of the command)
    that is marked inaccessible, has no ports, and whose error text is made
    of the exit status and of the stripped diagnostic output; and an
    inaccessible instance anywhere in the input of the allocator changes
    nothing: the plan and the conflicts are those of the input without it. *)
Theorem inaccessible_instance (instance : string) (result : CompletedProcess)
    (skipped : InstanceInfo) (before after : list InstanceInfo) :
  returncode result ≠ 0 →
  ii_accessible skipped = false →
  let info := scan_instance_ports instance result in
  ii_instance info = instance
  ∧ ii_accessible info = false
  ∧ ii_ports info = []
  ∧ ii_error info
    = Some ("Failed to access (exit " +:+ PyStr.of_int (returncode result)
            +:+ "): " +:+ PyStr.strip (stderr result))
  ∧ assign_external_ports (before ++ info :: after)
    = assign_external_ports (before ++ after)
  ∧ assign_external_ports (before ++ skipped :: after)
    = assign_external_ports (before ++ after).
Proof.
  intros Hrc Hskip. unfold scan_instance_ports.
  destruct (Z.eqb_spec (returncode result) 0) as [|_]; [done|]. simpl.
  split_and!; try done; unfold assign_external_ports;
    rewrite !foldl_app; simpl; now rewrite assign_instance_inaccessible.
Qed.

Lemma inaccessible_instance_witness :
  ii_error (scan_instance_ports "Debian" failed)
  = Some "Failed to access (exit 1): There is no distribution with the supplied name."
  ∧ assign_external_ports
      [running "Ubuntu" [record 22 "SSH"]; scan_instance_ports "Debian" failed;
       running "Alpine" [record 22 "SSH"]]
    = assign_external_ports
        [running "Ubuntu" [record 22 "SSH"]; running "Alpine" [record 22 "SSH"]].
Proof.
  destruct (inaccessible_instance "Debian" failed
              (scan_instance_ports "Debian" failed)
              [running "Ubuntu" [record 22 "SSH"]]
              [running "Alpine" [record 22 "SSH"]])
    as (_ & _ & _ & Herr & Hskip & _).
  - vm_compute. discriminate.
  - reflexivity.
  - split; [exact Herr | exact Hskip].
Defined.

(** *** The outer loop *)

Lemma assign_instance_accessible (st : AllocState) (info : InstanceInfo) :
  ii_accessible info = true →
  assign_instance st info
  = foldl (assign_port (ii_instance info)) (enter st (ii_instance info))
      (ii_ports info).
Proof. intros Hacc. unfold assign_instance. now rewrite Hacc. Qed.

Lemma assign_instance_used_mono (st : AllocState) (info : InstanceInfo) :
  used_external_ports st ⊆ used_external_ports (assign_instance st info).
Proof.
  destruct (ii_accessible info) eqn:Hacc.
  - rewrite assign_instance_accessible by done.
    apply (assign_ports_used_mono _ _ (enter st (ii_instance info))).
  - now rewrite assign_instance_inaccessible.
Qed.

Lemma assign_instances_used_mono (all_instances : list InstanceInfo)
    (st : AllocState) :
  used_external_ports st
  ⊆ used_external_ports (foldl assign_instance st all_instances).
Proof.
  revert st. induction all_instances as [|info rest IH]; intros st; simpl;
    [done|].
  etrans; [apply (assign_instance_used_mono st info) | apply IH].
Qed.

Lemma assign_instance_claimants (st : AllocState) (info : InstanceInfo) :
  claimants_counter_based (conflicts st) →
  claimants_counter_based (conflicts (assign_instance st info)).
Proof.
  intros Hst. destruct (ii_accessible info) eqn:Hacc.
  - rewrite assign_instance_accessible by done.
    by apply assign_ports_claimants.
  - now rewrite assign_instance_inaccessible.
Qed.

Lemma assign_instances_claimants (all_instances : list InstanceInfo)
    (st : AllocState) :
  claimants_counter_based (conflicts st) →
  claimants_counter_based (conflicts (foldl assign_instance st all_instances)).
Proof.
  revert st. induction all_instances as [|info rest IH]; intros st Hst; simpl;
    [done|].
  by apply IH, assign_instance_claimants.
Qed.

Lemma assign_instances_reachable (all_instances : list InstanceInfo)
    (st : AllocState) :
  foldl assign_instance st all_instances
  = foldl assign_instance st (reachable all_instances).
Proof.
  unfold reachable. revert st.
  induction all_instances as [|info rest IH]; intros st; [done|].
  destruct (ii_accessible info) eqn:Hacc.
  - rewrite filter_cons_True by done. simpl. apply IH.
  - rewrite filter_cons_False by congruence. simpl.
    rewrite assign_instance_inaccessible by done. apply IH.
Qed.

Lemma plan_rows_reachable (all_instances : list InstanceInfo) (st : AllocState) :
  plan_rows st all_instances = plan_rows st (reachable all_instances).
Proof.
  unfold reachable. revert st.
  induction all_instances as [|info rest IH]; intros st; [done|].
  destruct (ii_accessible info) eqn:Hacc.
  - rewrite filter_cons_True by done. simpl. rewrite Hacc. now rewrite IH.
  - rewrite filter_cons_False by congruence. simpl. rewrite Hacc. apply IH.
Qed.

Lemma reachable_accessible (all_instances : list InstanceInfo) :
  Forall (λ info, ii_accessible info = true) (reachable all_instances).
Proof. apply Forall_forall. intros info [? _]%list_elem_of_filter. done. Qed.

(** With instance names that are new and distinct, the outer loop appends
    one entry per accessible instance. *)
Lemma assign_instances_plan (all_instances : list InstanceInfo) (st : AllocState) :
  NoDup (PyDict.keys (port_assignments st)
         ++ (ii_instance <$> reachable all_instances)) →
  port_assignments (foldl assign_instance st all_instances)
  = port_assignments st ++ plan_rows st all_instances.
Proof.
  unfold reachable. revert st.
  induction all_instances as [|info rest IH]; intros st Hnd; simpl.
  - now rewrite app_nil_r.
  - destruct (ii_accessible info) eqn:Hacc.
    + rewrite filter_cons_True in Hnd by done. simpl in Hnd.
      assert (Hfresh : ii_instance info ∉ PyDict.keys (port_assignments st)).
      { apply NoDup_app in Hnd as (_ & Hdisj & _).
        intros Hin. apply (Hdisj _ Hin), list_elem_of_here. }
      assert (Hrow : port_assignments (assign_instance st info)
                     = port_assignments st
                       ++ [(ii_instance info,
                            emitted (ii_instance info)
                              (enter st (ii_instance info)) (ii_ports info))]).
      { rewrite assign_instance_accessible by done.
        apply (assign_ports_plan _ _ _ (port_assignments st) []); [done|].
        simpl. now apply dict_set_fresh. }
      rewrite IH.
      * rewrite Hrow. now rewrite <- app_assoc.
      * rewrite Hrow. unfold PyDict.keys in *. rewrite fmap_app. simpl.
        now rewrite <- app_assoc.
    + rewrite filter_cons_False in Hnd by congruence.
      rewrite assign_instance_inaccessible by done. now apply IH.
Qed.

Lemma plan_rows_lookup (all_instances : list InstanceInfo) (st : AllocState)
    (i : nat) (info : InstanceInfo) :
  Forall (λ info, ii_accessible info = true) all_instances →
  all_instances !! i = Some info →
  plan_rows st all_instances !! i
  = Some (ii_instance info,
          emitted (ii_instance info)
            (enter (foldl assign_instance st (take i all_instances))
                   (ii_instance info))
            (ii_ports info)).
Proof.
  intros Hacc. revert st i.
  induction Hacc as [|x rest Hx Hrest IH]; intros st [|i] Hi; simpl in *;
    try done; rewrite Hx; simpl.
  - by injection Hi as ->.
  - by apply IH.
Qed.

Lemma plan_rows_view (all_instances : list InstanceInfo) (st : AllocState) :
  row_view <$> plan_rows st all_instances
  = instance_view <$> reachable all_instances.
Proof.
  unfold reachable. revert st.
  induction all_instances as [|info rest IH]; intros st; [done|]. simpl.
  destruct (ii_accessible info) eqn:Hacc.
  - rewrite filter_cons_True by done. rewrite !fmap_cons.
    now rewrite emitted_view, IH.
  - rewrite filter_cons_False by congruence. apply IH.
Qed.

(** The plan and the conflicts of a run, for distinct instance names. *)
Lemma assign_external_ports_plan (all_instances : list InstanceInfo) :
  NoDup (ii_instance <$> reachable all_instances) →
  (assign_external_ports all_instances).1
  = plan_rows initial_state (reachable all_instances).
Proof.
  intros Hnd. unfold assign_external_ports. cbn [fst].
  rewrite assign_instances_plan by done. simpl. apply plan_rows_reachable.
Qed.

Lemma assign_external_ports_claimants (all_instances : list InstanceInfo) :
  claimants_counter_based (assign_external_ports all_instances).2.
Proof.
  unfold assign_external_ports. cbn [snd].
  apply assign_instances_claimants. intros e cl c Hcl.
  cbn [initial_state conflicts] in Hcl. by rewrite lookup_empty in Hcl.
Qed.

(** C5. Three accessible instances with distinct names, each with exactly
    one record, for internal port 22 and labelled "SSH": the plan has their
    three rows in enumeration order, with external ports 2201, 2202 and
    2203 (the SSH counter starts at 2201 and goes up by one at each use),
    and no conflict is recorded. *)
Theorem ssh_counter_three (first second third : InstanceInfo)
    (r1 r2 r3 : PortInfo) :
  NoDup [ii_instance first; ii_instance second; ii_instance third] →
  Forall (λ info, ii_accessible info = true) [first; second; third] →
  ii_ports first = [r1] → ii_ports second = [r2] → ii_ports third = [r3] →
  Forall (λ r, pi_port r = 22 ∧ pi_service_type r = "SSH") [r1; r2; r3] →
  assign_external_ports [first; second; third]
  = ([ (ii_instance first, [mapping_of (ii_instance first) r1 2201]);
       (ii_instance second, [mapping_of (ii_instance second) r2 2202]);
       (ii_instance third, [mapping_of (ii_instance third) r3 2203]) ],
     ∅).
Proof.
  intros Hnd Hacc Hp1 Hp2 Hp3 Hssh.
  apply Forall_cons in Hacc as [Ha1 Hacc].
  apply Forall_cons in Hacc as [Ha2 Hacc].
  apply Forall_cons in Hacc as [Ha3 _].
  apply Forall_cons in Hssh as [[Hr1 Hl1] Hssh].
  apply Forall_cons in Hssh as [[Hr2 Hl2] Hssh].
  apply Forall_cons in Hssh as [[Hr3 Hl3] _].
  assert (Hreach : reachable [first; second; third] = [first; second; third]).
  { unfold reachable. now rewrite !filter_cons_True. }
  apply injective_projections.
  - rewrite assign_external_ports_plan by now rewrite Hreach.
    rewrite Hreach. cbn [plan_rows fst]. rewrite Ha1, Ha2, Ha3.
    rewrite !assign_instance_accessible by done.
    rewrite Hp1, Hp2, Hp3. cbn [foldl emitted].
    unfold external_port_of, assign_port.
    rewrite Hr1, Hl1, Hr2, Hl2, Hr3, Hl3. reflexivity.
  - unfold assign_external_ports. cbn [foldl snd].
    rewrite !assign_instance_accessible by done.
    rewrite Hp1, Hp2, Hp3. cbn [foldl].
    unfold assign_port, external_port_of.
    rewrite Hr1, Hl1, Hr2, Hl2, Hr3, Hl3. reflexivity.
Qed.

Lemma ssh_counter_three_witness :
  row_ports
  <$> (assign_external_ports
         [running "Ubuntu" [record 22 "SSH"]; running "Debian" [record 22 "SSH"];
          running "Alpine" [record 22 "SSH"]]).1
  = [("Ubuntu", [2201]); ("Debian", [2202]); ("Alpine", [2203])].
Proof.
  rewrite (ssh_counter_three
             (running "Ubuntu" [record 22 "SSH"])
             (running "Debian" [record 22 "SSH"])
             (running "Alpine" [record 22 "SSH"])
             (record 22 "SSH") (record 22 "SSH") (record 22 "SSH")).
  - reflexivity.
  - apply (bool_decide_unpack _). vm_compute. exact I.
  - repeat constructor.
  - reflexivity.
  - reflexivity.
  - reflexivity.
  - repeat constructor.
Defined.

(** C8 as stated, for every input sequence, does not hold. With the name
    Ubuntu enumerated twice, both times accessible, the entry of the name in
    the plan is set anew when the second record is reached: there are two
    accessible instances and two port records, and the plan has one row
    with one mapping; the record of port 22 has none. *)
Lemma repeated_name_loses_mapping :
  let all_instances := [running "Ubuntu" [record 22 "SSH"];
                        running "Ubuntu" [record 80 "HTTP"]] in
  instance_view <$> reachable all_instances
  = [("Ubuntu", [("Ubuntu", 22, "SSH", "0.0.0.0")]);
     ("Ubuntu", [("Ubuntu", 80, "HTTP", "0.0.0.0")])]
  ∧ row_view <$> (assign_external_ports all_instances).1
    = [("Ubuntu", [("Ubuntu", 80, "HTTP", "0.0.0.0")])]
  ∧ row_view <$> (assign_external_ports all_instances).1
    ≠ instance_view <$> reachable all_instances.
Proof. split_and!; [reflexivity | reflexivity | discriminate]. Qed.

(** C8, amended. When the accessible instances have distinct names, the
    plan has one row per accessible instance, in enumeration order, and the
    row of an instance has one mapping per record of the instance, in scan
    order, carrying the record's port, label and address; this holds for
    every such input, so also for the records whose external port is
    recorded as a conflict. *)
Theorem one_mapping_per_record (all_instances : list InstanceInfo) :
  NoDup (ii_instance <$> reachable all_instances) →
  row_view <$> (assign_external_ports all_instances).1
  = instance_view <$> reachable all_instances.
Proof.
  intros Hnd. rewrite assign_external_ports_plan by done.
  rewrite <- plan_rows_reachable. apply plan_rows_view.
Qed.

Lemma one_mapping_per_record_witness :
  row_view <$> (assign_external_ports dev_clash).1
  = [ ("Ubuntu", [ ("Ubuntu", 9001, "Unknown", "0.0.0.0");
                   ("Ubuntu", 3000, "Node.js Dev", "0.0.0.0") ]);
      ("Alpine", [ ("Alpine", 22, "SSH", "0.0.0.0") ]) ]
  ∧ (assign_external_ports dev_clash).2
    = {[ 9001 := [claimant_of "Ubuntu" (record 3000 "Node.js Dev")] ]}.
Proof.
  split.
  - rewrite (one_mapping_per_record dev_clash).
    + reflexivity.
    + apply (bool_decide_unpack _). vm_compute. exact I.
  - vm_compute. reflexivity.
Defined.

(** The distinctness of the names matters: the entry of a name that comes
    back is reset, and the mappings of its earlier occurrence leave the
    plan. *)
Remark repeated_name_resets_row :
  row_view <$> (assign_external_ports
                  [running "Ubuntu" [record 22 "SSH"];
                   running "Ubuntu" [record 80 "HTTP"]]).1
  = [("Ubuntu", [("Ubuntu", 80, "HTTP", "0.0.0.0")])].
Proof. reflexivity. Qed.

(** *** The firewall field *)

Lemma assign_port_local (instance : string) (st : AllocState) (r : PortInfo) :
  plan_local st → plan_local (assign_port instance st r).
Proof.
  unfold plan_local, assign_port. simpl.
  apply dict_values_update_Forall. intros ms Hms.
  apply Forall_app. split; [done|]. by repeat constructor.
Qed.

Lemma assign_instance_local (st : AllocState) (info : InstanceInfo) :
  plan_local st → plan_local (assign_instance st info).
Proof.
  intros Hst. destruct (ii_accessible info) eqn:Hacc;
    [|now rewrite assign_instance_inaccessible].
  rewrite assign_instance_accessible by done.
  assert (Henter : plan_local (enter st (ii_instance info))).
  { unfold plan_local, enter. simpl. by apply dict_values_set_Forall. }
  revert Henter. generalize (enter st (ii_instance info)).
  induction (ii_ports info) as [|r ports IH]; intros st' Hst'; simpl; [done|].
  by apply IH, assign_port_local.
Qed.

Lemma assign_external_ports_local (all_instances : list InstanceInfo) :
  Forall (Forall (λ m, m_firewall m = "local"))
    (PyDict.values (assign_external_ports all_instances).1).
Proof.
  unfold assign_external_ports. cbn [fst].
  assert (Hinit : plan_local initial_state) by constructor.
  revert Hinit. generalize initial_state.
  induction all_instances as [|info rest IH]; intros st Hst; simpl; [done|].
  by apply IH, assign_instance_local.
Qed.

Lemma port_config_of_fields (m : Mapping) :
  PyDict.get "port" (port_config_of m) = Some (JInt (m_port m))
  ∧ PyDict.get "firewall" (port_config_of m) = Some (JStr (m_firewall m))
  ∧ PyDict.get "internal_port" (port_config_of m)
    = (if decide (m_port m = m_internal_port m) then None
       else Some (JInt (m_internal_port m)))
  ∧ ("internal_port" ∈ PyDict.keys (port_config_of m)
     ↔ m_internal_port m ≠ m_port m).
Proof.
  unfold port_config_of. case_decide as Heq.
  - split_and!; try reflexivity.
    split; [|congruence]. vm_compute. intros Hin.
    repeat (apply elem_of_cons in Hin as [Hin|Hin]; [discriminate|]).
    by apply elem_of_nil in Hin.
  - split_and!; try reflexivity.
    split; [congruence|]. intros _. apply elem_of_cons. right.
    apply list_elem_of_here.
Qed.

(** C9. Every port entry of the configuration document comes from a mapping
    of the plan; its [port] field is the external port of the mapping, its
    [firewall] field is the string "local", and it has an [internal_port]
    field, holding the internal port of the mapping, exactly when that port
    differs from the external one. *)
Theorem config_port_entries (all_instances : list InstanceInfo)
    (ic : InstanceConfig) (pc : PyDict.t string JValue) :
  ic ∈ instances (build_config all_instances) →
  pc ∈ ic_ports ic →
  ∃ ms m,
    (ic_name ic, ms) ∈ (assign_external_ports all_instances).1 ∧ m ∈ ms
    ∧ pc = port_config_of m
    ∧ PyDict.get "port" pc = Some (JInt (m_port m))
    ∧ PyDict.get "firewall" pc = Some (JStr "local")
    ∧ PyDict.get "internal_port" pc
      = (if decide (m_port m = m_internal_port m) then None
         else Some (JInt (m_internal_port m)))
    ∧ ("internal_port" ∈ PyDict.keys pc ↔ m_internal_port m ≠ m_port m).
Proof.
  unfold build_config. cbn [instances].
  intros ([name ms] & -> & Hrow)%list_elem_of_fmap.
  cbn [instance_config_of ic_ports ic_name fst snd].
  intros (m & -> & Hm)%list_elem_of_fmap.
  exists ms, m.
  assert (Hlocal : m_firewall m = "local").
  { pose proof (assign_external_ports_local all_instances) as Hall.
    rewrite Forall_forall in Hall.
    specialize (Hall ms). rewrite Forall_forall in Hall. apply Hall; [|done].
    unfold PyDict.values. apply list_elem_of_fmap. by exists (name, ms). }
  destruct (port_config_of_fields m) as (Hport & Hfw & Hint & Hkey).
  rewrite Hlocal in Hfw. by split_and!.
Qed.

Lemma config_port_entries_witness :
  ∃ pc, pc ∈ mjoin (ic_ports <$> instances (build_config dev_clash))
        ∧ PyDict.get "firewall" pc = Some (JStr "local")
        ∧ PyDict.get "internal_port" pc = None.
Proof.
  destruct (config_port_entries dev_clash
              (instance_config_of
                 ("Ubuntu", [mapping_of "Ubuntu" (record 9001 "Unknown") 9001;
                             mapping_of "Ubuntu" (record 3000 "Node.js Dev") 9001]))
              (port_config_of (mapping_of "Ubuntu" (record 9001 "Unknown") 9001)))
    as (ms & m & _ & _ & Hpc & _ & Hfw & _).
  - vm_compute. apply list_elem_of_here.
  - vm_compute. apply list_elem_of_here.
  - exists (port_config_of (mapping_of "Ubuntu" (record 9001 "Unknown") 9001)).
    split_and!; [vm_compute; apply list_elem_of_here | exact Hfw | reflexivity].
Defined.

(** *** Records of the last branch *)

Lemma assign_instances_take_mono (all_instances : list InstanceInfo)
    (st : AllocState) (i j : nat) :
  (i ≤ j)%nat →
  used_external_ports (foldl assign_instance st (take i all_instances))
  ⊆ used_external_ports (foldl assign_instance st (take j all_instances)).
Proof.
  revert st i j.
  induction all_instances as [|info rest IH]; intros st i j Hij.
  - now rewrite !take_nil.
  - destruct i as [|i].
    + apply assign_instances_used_mono.
    + destruct j as [|j]; [lia|]. simpl. apply IH. lia.
Qed.

(** The state in which the record at position [a] of the instance at
    position [i] is processed. *)
Lemma used_before_later_record (all_instances : list InstanceInfo)
    (st : AllocState) (i j a b : nat) (first second : InstanceInfo)
    (ra : PortInfo) :
  Forall (λ info, ii_accessible info = true) all_instances →
  all_instances !! i = Some first → all_instances !! j = Some second →
  (i < j)%nat → ii_ports first !! a = Some ra →
  used_external_ports
    (assign_port (ii_instance first)
       (foldl (assign_port (ii_instance first))
          (enter (foldl assign_instance st (take i all_instances))
             (ii_instance first))
          (take a (ii_ports first))) ra)
  ⊆ used_external_ports
      (foldl (assign_port (ii_instance second))
         (enter (foldl assign_instance st (take j all_instances))
            (ii_instance second))
         (take b (ii_ports second))).
Proof.
  intros Hacc Hi Hj Hij Ha.
  etrans; [|apply assign_ports_used_mono]. cbn [enter used_external_ports].
  etrans; [|apply (assign_instances_take_mono _ _ (S i) j); lia].
  rewrite (take_S_r _ _ _ Hi), foldl_app. cbn [foldl].
  rewrite assign_instance_accessible
    by (rewrite Forall_forall in Hacc; eapply Hacc, list_elem_of_lookup_2, Hi).
  rewrite <- (take_drop_middle _ _ _ Ha) at 2.
  rewrite foldl_app. cbn [foldl]. apply assign_ports_used_mono.
Qed.

(** C10. A record that takes the last branch of the chain gets a port that
    is not in the set of used ports when the conflict test is made, in
    whatever state the allocator is, so that the test fails and the step
    records nothing in [conflicts]; and in the conflicts that a run
    returns, every claimant is a record of one of the seven counter
    branches. *)
Theorem fallback_never_conflicts (all_instances : list InstanceInfo)
    (st : AllocState) (instance : string) (r : PortInfo) :
  (takes_fallback r →
   (external_port_of st r ∉ used_external_ports st)
   ∧ conflicts (assign_port instance st r) = conflicts st)
  ∧ claimants_counter_based (assign_external_ports all_instances).2.
Proof.
  split; [|apply assign_external_ports_claimants].
  intros Hr. by destruct (assign_port_fallback instance st r Hr) as (_ & ? & ? & _).
Qed.

Lemma fallback_never_conflicts_witness :
  let st := foldl assign_instance initial_state dev_clash in
  external_port_of st (record 1001 "Unknown") = 9002
  ∧ (external_port_of st (record 1001 "Unknown") ∉ used_external_ports st)
  ∧ conflicts (assign_port "Alpine" st (record 1001 "Unknown")) = conflicts st.
Proof.
  split; [reflexivity|].
  apply (fallback_never_conflicts dev_clash). reflexivity.
Defined.

(** C1 as stated does not hold: the two records take the last branch with
    the candidate 9500, the first gets 9500, the second 9501, and no
    conflict is recorded. *)
Lemma fallback_pair_no_conflict :
  Forall (λ info, Forall (λ r, takes_fallback r ∧ candidate r = 9500)
                    (ii_ports info)) fallback_pair
  ∧ row_ports <$> (assign_external_ports fallback_pair).1
    = [("Ubuntu", [9500]); ("Debian", [9501])]
  ∧ (assign_external_ports fallback_pair).2 !! 9500 = None
  ∧ (assign_external_ports fallback_pair).2 = ∅.
Proof.
  split_and!; [|reflexivity..].
  repeat constructor.
Qed.

(** C1, amended. Take two accessible instances of an input whose accessible
    instances have distinct names, and in each a record that takes the
    last branch of the chain, both with the same candidate
    9000 + (internal port mod 1000).  Both records get a mapping, at their
    place in the row of their instance; the external port of the first is
    at or above the candidate, that of the second is strictly above that of
    the first; and neither record is a claimant of any conflict. *)
Theorem fallback_pair_distinct_ports (all_instances : list InstanceInfo)
    (i j a b : nat) (first second : InstanceInfo) (ra rb : PortInfo) :
  NoDup (ii_instance <$> reachable all_instances) →
  reachable all_instances !! i = Some first →
  reachable all_instances !! j = Some second →
  (i < j)%nat →
  ii_ports first !! a = Some ra →
  ii_ports second !! b = Some rb →
  takes_fallback ra → takes_fallback rb →
  candidate ra = candidate rb →
  ∃ msa msb ea eb,
    (assign_external_ports all_instances).1 !! i = Some (ii_instance first, msa)
    ∧ msa !! a = Some (mapping_of (ii_instance first) ra ea)
    ∧ (assign_external_ports all_instances).1 !! j
      = Some (ii_instance second, msb)
    ∧ msb !! b = Some (mapping_of (ii_instance second) rb eb)
    ∧ candidate ra ≤ ea < eb
    ∧ ∀ external_port claimants,
        (assign_external_ports all_instances).2 !! external_port = Some claimants →
        (claimant_of (ii_instance first) ra ∉ claimants)
        ∧ (claimant_of (ii_instance second) rb ∉ claimants).
Proof.
  intros Hnd Hi Hj Hij Ha Hb Hra Hrb Hcand.
  pose proof (reachable_accessible all_instances) as Hacc.
  rewrite assign_external_ports_plan by done.
  set (L := reachable all_instances) in *.
  set (sa := foldl (assign_port (ii_instance first))
               (enter (foldl assign_instance initial_state (take i L))
                  (ii_instance first))
               (take a (ii_ports first))).
  set (sb := foldl (assign_port (ii_instance second))
               (enter (foldl assign_instance initial_state (take j L))
                  (ii_instance second))
               (take b (ii_ports second))).
  eexists _, _, (external_port_of sa ra), (external_port_of sb rb).
  split_and!.
  - by apply plan_rows_lookup.
  - by apply emitted_lookup.
  - by apply plan_rows_lookup.
  - by apply emitted_lookup.
  - destruct (assign_port_fallback (ii_instance first) sa ra Hra)
      as (-> & _ & _ & _).
    apply next_free_spec.
  - assert (Hsub : used_external_ports (assign_port (ii_instance first) sa ra)
                   ⊆ used_external_ports sb)
      by (by eapply used_before_later_record).
    destruct (assign_port_fallback (ii_instance first) sa ra Hra)
      as (Hea & _ & _ & Hused).
    destruct (assign_port_fallback (ii_instance second) sb rb Hrb)
      as (Heb & Hfree & _ & _).
    destruct (next_free_spec (used_external_ports sa) (candidate ra))
      as (_ & Hle & Hbelow).
    destruct (next_free_spec (used_external_ports sb) (candidate rb))
      as (_ & Hle' & _).
    rewrite <- Hea in Hle, Hbelow. rewrite <- Heb in Hle'.
    destruct (decide (external_port_of sa ra < external_port_of sb rb));
      [done|].
    exfalso. apply Hfree, Hsub. rewrite Hused.
    destruct (decide (external_port_of sb rb = external_port_of sa ra))
      as [->|]; [apply elem_of_union_l; by apply elem_of_singleton|].
    apply elem_of_union_r, Hbelow. lia.
  - intros e cl Hcl.
    pose proof (assign_external_ports_claimants all_instances e cl) as Hinv.
    split; intros Hin; by apply (Hinv _ Hcl Hin).
Qed.

Lemma fallback_pair_distinct_ports_witness :
  row_ports <$> (assign_external_ports fallback_pair).1
  = [("Ubuntu", [9500]); ("Debian", [9501])]
  ∧ ∃ ea eb, 9500 ≤ ea < eb.
Proof.
  split; [reflexivity|].
  destruct (fallback_pair_distinct_ports fallback_pair 0 1 0 0
              (running "Ubuntu" [record 1500 "Unknown"])
              (running "Debian" [record 9500 "Unknown"])
              (record 1500 "Unknown") (record 9500 "Unknown"))
    as (msa & msb & ea & eb & _ & _ & _ & _ & Hlt & _).
  - apply (bool_decide_unpack _). vm_compute. exact I.
  - reflexivity.
  - reflexivity.
  - lia.
  - reflexivity.
  - reflexivity.
  - reflexivity.
  - reflexivity.
  - reflexivity.
  - exists ea, eb. exact Hlt.
Defined.

(** * Further properties *)

(** ** Splitting at the last colon *)

Lemma rsplit1_None (sep : ascii) (s : string) :
  PyStr.rsplit1 sep s = None ↔ sep ∉ chars s.
Proof.
  unfold chars. induction s as [|c s IH]; simpl.
  - split; [intros _; apply not_elem_of_nil | done].
  - destruct (PyStr.rsplit1 sep s) as [[a b]|].
    + split; [done|]. rewrite not_elem_of_cons. intros [_ Hs].
      by apply IH in Hs.
    + destruct (Ascii.eqb_spec c sep) as [->|Hne].
      * split; [done|]. rewrite not_elem_of_cons. by intros [? _].
      * rewrite not_elem_of_cons. split; [|done].
        intros _. split; [congruence | by apply IH].
Qed.

Lemma rsplit1_app (sep : ascii) (a b : string) :
  sep ∉ chars b → PyStr.rsplit1 sep (a +:+ String sep b) = Some (a, b).
Proof.
  intros Hb%rsplit1_None. induction a as [|c a IH]; simpl.
  - rewrite Hb. now rewrite Ascii.eqb_refl.
  - now rewrite IH.
Qed.

Lemma rsplit1_Some (sep : ascii) (s a b : string) :
  PyStr.rsplit1 sep s = Some (a, b) → s = a +:+ String sep b ∧ sep ∉ chars b.
Proof.
  revert a. induction s as [|c s IH]; intros a; simpl; [done|].
  destruct (PyStr.rsplit1 sep s) as [[a' b']|] eqn:Hs.
  - intros [= <- <-]. destruct (IH a' eq_refl) as [-> Hb]. by split.
  - destruct (Ascii.eqb_spec c sep) as [->|]; [|done].
    intros [= <- <-]. split; [done | by apply rsplit1_None].
Qed.

Lemma contains_char (c : ascii) (s : string) :
  PyStr.contains (String c "") s = true ↔ c ∈ chars s.
Proof.
  unfold chars. induction s as [|d s IH]; simpl.
  - split; [done | by intros ?%elem_of_nil].
  - rewrite orb_true_iff, IH, elem_of_cons.
    destruct (Ascii.eqb_spec c d) as [->|Hne]; simpl.
    + split; [intros _; by left | intros _; by left].
    + split; [intros [?|?]; [done | by right] | intros [?|?]; [done | by right]].
Qed.

Lemma chars_app (a b : string) : chars (a +:+ b) = chars a ++ chars b.
Proof. unfold chars. induction a as [|c a IH]; simpl; [done | by rewrite IH]. Qed.

(** X2. The parsing loop keeps a row exactly when the row contains LISTEN,
    has a fourth column of the form address, colon, port text where the
    port text holds no further colon (so the split is at the last colon,
    whatever colons the address has), [int] reads the port text, and the
    address begins neither with 127.0.0 nor with ::1; the record then
    carries that address and that port. *)
Theorem parse_line_iff (line : string) (r : PortInfo) :
  parse_line line = Some r
  ↔ PyStr.contains "LISTEN" line = true
    ∧ ∃ addr port_str,
        PyStr.split_ws line !! 3%nat = Some (addr +:+ ":" +:+ port_str)
        ∧ (":"%char ∉ chars port_str)
        ∧ PyStr.int port_str = Some (pi_port r)
        ∧ PyStr.startswith "127.0.0" addr = false
        ∧ PyStr.startswith "::1" addr = false
        ∧ r = record_of line addr (pi_port r).
Proof.
  split.
  - intros Hparse.
    assert (Hlisten : PyStr.contains "LISTEN" line = true).
    { unfold parse_line in Hparse.
      by destruct (PyStr.contains "LISTEN" line). }
    apply parse_line_inv in Hparse
      as (local_addr & addr & port_str & H3 & Hsplit & Hint & H4 & H6 & Hr).
    apply rsplit1_Some in Hsplit as [-> Hcolon].
    split; [done|]. by exists addr, port_str.
  - intros (Hlisten & addr & port_str & H3 & Hcolon & Hint & H4 & H6 & Hr).
    change (addr +:+ ":" +:+ port_str) with (addr +:+ String ":" port_str) in H3.
    unfold parse_line. rewrite Hlisten. cbn [negb].
    assert (Hlen : (length (PyStr.split_ws line) <? 4)%nat = false).
    { apply Nat.ltb_ge. apply lookup_lt_Some in H3. lia. }
    rewrite Hlen, H3.
    assert (Hin : PyStr.contains ":" (addr +:+ String ":" port_str) = true).
    { apply contains_char. rewrite chars_app. apply elem_of_app. right.
      apply list_elem_of_here. }
    rewrite Hin. cbn [negb].
    rewrite (rsplit1_app ":" addr port_str Hcolon), Hint, H4, H6. cbn [orb].
    by rewrite Hr.
Qed.

Lemma parse_line_iff_witness :
  parse_line ipv6_row = Some (record_of ipv6_row "[fe80::1%eth0]" 8080).
Proof.
  apply (proj2 (parse_line_iff ipv6_row (record_of ipv6_row "[fe80::1%eth0]" 8080))).
  split; [reflexivity|].
  exists "[fe80::1%eth0]", "8080". split_and!; try reflexivity.
  vm_compute. intros Hin.
  repeat (apply elem_of_cons in Hin as [Hin|Hin]; [discriminate|]).
  by apply elem_of_nil in Hin.
Defined.

(** ** Scan order and the summary of labels *)

Lemma dedup_loop_sublist (ports : list PortInfo) (d : PyDict.t Z PortInfo) :
  PyDict.values (foldl dedup_step d ports) `sublist_of` PyDict.values d ++ ports.
Proof.
  revert d. induction ports as [|x ports IH]; intros d; simpl.
  - now rewrite app_nil_r.
  - etrans; [apply IH|]. unfold dedup_step. case_decide as Hin.
    + apply sublist_app; [done | by apply sublist_cons].
    + rewrite dict_set_fresh by done. unfold PyDict.values.
      rewrite fmap_app. simpl. now rewrite <- app_assoc.
Qed.

(** X3. The records of a scan result are in the order of their rows: the
    list of records is the list of the rows kept by the parsing loop with
    some of them left out, none moved. *)
Theorem scan_keeps_row_order (instance : string) (result : CompletedProcess) :
  ii_ports (scan_instance_ports instance result)
  `sublist_of` omap parse_line (listing_rows result).
Proof.
  unfold scan_instance_ports. destruct (negb _); simpl.
  - apply sublist_nil_l.
  - apply (dedup_loop_sublist _ []).
Qed.

Lemma summarize_loop_lookup (ports : list PortInfo) (m : gmap Z (gset string))
    (port : Z) :
  foldl (λ m port_info,
           <[pi_port port_info :=
               default ∅ (m !! pi_port port_info) ∪ {[pi_service_type port_info]}]> m)
        m ports !! port
  = match filter (λ r, pi_port r = port) ports with
    | [] => m !! port
    | rs => Some (default ∅ (m !! port) ∪ list_to_set (pi_service_type <$> rs))
    end.
Proof.
  revert m. induction ports as [|x ports IH]; intros m; [done|].
  cbn [foldl]. rewrite IH. destruct (decide (pi_port x = port)) as [<-|Hne].
  - rewrite filter_cons_True by done. rewrite lookup_insert_eq. cbn [default].
    destruct (filter _ ports) as [|y rs]; f_equal.
    + now rewrite fmap_cons, list_to_set_cons, fmap_nil, list_to_set_nil,
        (right_id_L ∅ (∪)).
    + rewrite (fmap_cons _ x), (list_to_set_cons (pi_service_type x)).
      now rewrite (assoc_L (∪)).
  - rewrite filter_cons_False by done. now rewrite lookup_insert_ne.
Qed.

Lemma dedup_ports_has_port (ports : list PortInfo) (port : Z) :
  port ∈ pi_port <$> dedup_ports ports
  ↔ filter (λ r, pi_port r = port) ports ≠ [].
Proof.
  assert (Hiff : port ∈ pi_port <$> dedup_ports ports
                 ↔ filter (λ r, pi_port r = port) (dedup_ports ports) ≠ []).
  { rewrite list_elem_of_fmap. split.
    - intros (r & -> & Hr) Hnil.
      assert (Hin : r ∈ filter (λ r', pi_port r' = pi_port r) (dedup_ports ports))
        by (by apply list_elem_of_filter).
      rewrite Hnil in Hin. by apply elem_of_nil in Hin.
    - destruct (filter _ (dedup_ports ports)) as [|r rs] eqn:Hf; [done|].
      intros _. assert (Hin : r ∈ filter (λ r, pi_port r = port) (dedup_ports ports))
        by (rewrite Hf; apply list_elem_of_here).
      apply list_elem_of_filter in Hin as [<- Hin]. by exists r. }
  rewrite Hiff, dedup_ports_first. unfold first_with_port.
  by destruct (filter _ ports).
Qed.

(** X4. In a successful scan the [services] summary has an entry for a port
    exactly when the result has a record for that port, and the entry is
    the set of the labels of all the rows kept by the parsing loop for
    that port, the rows dropped as duplicates included. *)
Theorem services_summary (instance : string) (result : CompletedProcess)
    (port : Z) :
  returncode result = 0 →
  let appended := omap parse_line (listing_rows result) in
  let info := scan_instance_ports instance result in
  ii_services info !! port
  = if decide (port ∈ pi_port <$> ii_ports info)
    then Some (list_to_set
                 (pi_service_type <$> filter (λ r, pi_port r = port) appended))
    else None.
Proof.
  intros Hrc. unfold scan_instance_ports. rewrite Hrc. cbn.
  unfold summarize, listing_rows. rewrite summarize_loop_lookup.
  rewrite lookup_empty. cbn [default].
  case_decide as Hin; rewrite dedup_ports_has_port in Hin.
  - destruct (filter _ _); [done|]. f_equal. apply (left_id_L ∅ (∪)).
  - destruct (filter _ _) as [|r rs]; [done|]. by exfalso; apply Hin.
Qed.

Lemma services_summary_witness :
  ii_services (scan_instance_ports "Ubuntu" (ok postgres_rows)) !! 5432
  = Some {[ "PostgreSQL" ]}.
Proof.
  rewrite (services_summary "Ubuntu" (ok postgres_rows) 5432 eq_refl).
  vm_compute. reflexivity.
Defined.

(** ** The search for a free port *)

Lemma next_free_from_bound (turns : nat) (used : gset Z) (p : Z) :
  next_free_from turns used p ≤ p + Z.of_nat turns.
Proof.
  revert p. induction turns as [|turns IH]; intros p; simpl; [lia|].
  case_decide; [|lia]. specialize (IH (p + 1)). lia.
Qed.

(** X1. The loop [while external_port in used_external_ports:
    external_port += 1] ends, on the least port from its start on that is
    not in the set; it never moves further than the number of ports in the
    set. *)
Theorem free_port_search (used : gset Z) (start : Z) :
  (next_free used start ∉ used)
  ∧ start ≤ next_free used start ≤ start + Z.of_nat (size used)
  ∧ (∀ q, start ≤ q → q ∉ used → next_free used start ≤ q).
Proof.
  destruct (next_free_spec used start) as (Hfree & Hle & Hbelow).
  split_and!; [done | done | apply next_free_from_bound |].
  intros q Hq Hnot.
  destruct (decide (next_free used start ≤ q)); [done|].
  exfalso. apply Hnot, Hbelow. lia.
Qed.

Lemma free_port_search_witness :
  next_free {[ 9500; 9501 ]} 9500 = 9502
  ∧ next_free {[ 9500; 9501 ]} 9500 ≤ 9502.
Proof.
  split; [reflexivity|].
  apply (free_port_search {[ 9500; 9501 ]} 9500); [lia|].
  apply (bool_decide_unpack _). vm_compute. exact I.
Defined.

(** ** Which branch of the allocator a classified record takes *)

Lemma identify_service_layers (port : Z) (line : string) :
  identify_service port line
  = match common_ports !! port with
    | Some label => label
    | None => default (range_guess port) (text_hint line)
    end.
Proof.
  unfold identify_service, text_hint, text_rules, range_guess, range_rules.
  destruct (common_ports !! port); [done|]. simpl.
  repeat match goal with
  | |- context [PyStr.contains ?t ?l] =>
      destruct (PyStr.contains t l); simpl; try reflexivity
  end.
  repeat (case_match; simpl; try reflexivity).
Qed.

Lemma common_ports_inv (port : Z) (label : string) :
  common_ports !! port = Some label →
  (port, label) ∈ [ (22, "SSH"); (80, "HTTP"); (443, "HTTPS"); (3306, "MySQL");
      (5432, "PostgreSQL"); (6379, "Redis"); (6432, "PgBouncer");
      (631, "CUPS"); (53, "DNS"); (3000, "Node.js Dev"); (8000, "HTTP Dev");
      (8080, "HTTP Alt"); (5000, "Flask Dev"); (3001, "React Dev");
      (4000, "GraphQL"); (5678, "Debug"); (7080, "Proxy/LB") ].
Proof. unfold common_ports. apply elem_of_list_to_map_2. Qed.

Lemma text_hint_labels (line label : string) :
  text_hint line = Some label →
  label ∈ ["SSH"; "HTTP"; "MySQL"; "PostgreSQL"; "Redis"; "Node.js"; "Python";
           "VS Code"].
Proof.
  unfold text_hint. intros Hhint.
  apply fmap_Some in Hhint as ([toks l] & Hfind & ->).
  apply find_some in Hfind as [Hin _]. simpl.
  apply list_elem_of_In in Hin. unfold text_rules in Hin.
  repeat (apply elem_of_cons in Hin as [[= _ <-]|Hin];
          [repeat (first [apply list_elem_of_here | apply list_elem_of_further])|]).
  by apply elem_of_nil in Hin.
Qed.

Lemma range_guess_dev (port : Z) :
  range_guess port ∈ ["Dev Server"; "Node.js Dev"; "Flask Dev"]
  ↔ 3000 ≤ port ≤ 3999.
Proof.
  unfold range_guess, range_rules. simpl.
  repeat (case_match; simpl);
    (split; [intros Hin | intros Hr]); try lia;
    try (repeat (first [apply list_elem_of_here | apply list_elem_of_further]));
    try (repeat (apply elem_of_cons in Hin as [Hin|Hin]; [discriminate|]);
         by apply elem_of_nil in Hin).
Qed.

(** X5. For a record labelled by the classifier, the branch of the
    allocator is decided by the port and the table alone for the HTTP,
    HTTPS, MySQL, PostgreSQL and Redis counters (ports 80, 443, 3306, 5432
    and 6379: the label tests of these branches never fail on such a
    record); the Dev counter is taken by ports 3000 and 5000 and by the
    ports 3000..3999 outside the table whose row has no process-name hint. *)
Theorem rule_of_classified (port : Z) (line : string) :
  let rule := select_rule (identify_service port line) port in
  (rule = RuleHTTP ↔ port = 80)
  ∧ (rule = RuleHTTPS ↔ port = 443)
  ∧ (rule = RuleMySQL ↔ port = 3306)
  ∧ (rule = RulePostgres ↔ port = 5432)
  ∧ (rule = RuleRedis ↔ port = 6379)
  ∧ (rule = RuleDev
     ↔ port = 3000 ∨ port = 5000
       ∨ (common_ports !! port = None ∧ text_hint line = None
          ∧ 3000 ≤ port ≤ 3999)).
Proof.
  cbn zeta.
  assert (Hfwd : ∀ label,
            (select_rule label port = RuleHTTP → port = 80)
            ∧ (select_rule label port = RuleHTTPS → port = 443)
            ∧ (select_rule label port = RuleMySQL → port = 3306)
            ∧ (select_rule label port = RulePostgres → port = 5432)
            ∧ (select_rule label port = RuleRedis → port = 6379)
            ∧ (select_rule label port = RuleDev →
               label ∈ ["Dev Server"; "Node.js Dev"; "Flask Dev"])).
  { intros label. unfold select_rule.
    repeat case_decide; split_and!; intros; try discriminate;
      solve [tauto | lia]. }
  destruct (Hfwd (identify_service port line))
    as (H1 & H2 & H3 & H4 & H5 & H6).
  split_and!; (split; [auto|]).
  - intros ->. reflexivity.
  - intros ->. reflexivity.
  - intros ->. reflexivity.
  - intros ->. reflexivity.
  - intros ->. reflexivity.
  - intros Hdev%H6. rewrite identify_service_layers in Hdev.
    destruct (common_ports !! port) as [label|] eqn:Htable.
    + apply common_ports_inv in Htable.
      repeat (apply elem_of_cons in Htable as [[= -> ->]|Htable];
              [first [by left | by right; left
                     | exfalso;
                       repeat (apply elem_of_cons in Hdev as [Hdev|Hdev];
                               [discriminate|]);
                       by apply elem_of_nil in Hdev]|]).
      by apply elem_of_nil in Htable.
    + destruct (text_hint line) as [label|] eqn:Hhint; simpl in Hdev.
      * exfalso. apply text_hint_labels in Hhint.
        repeat (apply elem_of_cons in Hhint as [->|Hhint];
                [repeat (apply elem_of_cons in Hdev as [Hdev|Hdev];
                         [discriminate|]);
                 by apply elem_of_nil in Hdev|]).
        by apply elem_of_nil in Hhint.
      * right; right.
        split; [done | split; [done | by apply range_guess_dev]].
  - intros [ ->|[ ->|(Htable & Hhint & Hrange)]]; [reflexivity..|].
    assert (Hlabel : identify_service port line = "Dev Server").
    { rewrite identify_service_layers, Htable, Hhint. simpl.
      apply range_guess_dev in Hrange.
      unfold range_guess, range_rules in *. simpl in *.
      repeat (case_match; simpl in *; try reflexivity);
        repeat (apply elem_of_cons in Hrange as [Hrange|Hrange];
                [discriminate|]);
        by apply elem_of_nil in Hrange. }
    rewrite Hlabel. unfold select_rule.
    rewrite decide_False; [|intros [?| ->]; [discriminate | lia]].
    rewrite decide_False by (intros [_ ->]; lia).
    rewrite decide_False by (intros [[=] _]).
    rewrite decide_False by (intros [[=] _]).
    rewrite decide_False by (intros [[=] _]).
    rewrite decide_False by (intros [[=] _]).
    rewrite decide_True; [done | apply list_elem_of_here].
Qed.

Lemma rule_of_classified_witness :
  select_rule (identify_service 3500 "") 3500 = RuleDev
  ∧ select_rule (identify_service 80 (nginx_row "80")) 80 = RuleHTTP.
Proof.
  split.
  - apply (rule_of_classified 3500 ""). right; right.
    split; [reflexivity | split; [reflexivity | lia]].
  - apply (rule_of_classified 80 (nginx_row "80")). reflexivity.
Defined.

(** ** Conflicts and the plan *)

Lemma assign_port_account (instance : string) (st : AllocState) (r : PortInfo)
    (E : list Mapping) :
  conflicts_account E st →
  conflicts_account (E ++ [mapping_of instance r (external_port_of st r)])
    (assign_port instance st r).
Proof.
  intros Hinv e. destruct (Hinv e) as [Hused Hconf].
  unfold with_port in *. rewrite filter_app.
  unfold assign_port. cbn [used_external_ports conflicts].
  destruct (decide (external_port_of st r = e)) as [<-|Hne].
  - rewrite (filter_cons_True _ (mapping_of instance r _)) by done.
    rewrite filter_nil.
    case_bool_decide as Htaken.
    + apply Hused in Htaken as Hne.
      destruct (filter _ E) as [|m0 later]; [done|]. simpl in *.
      split; [done|]. rewrite lookup_insert_eq, Hconf, fmap_app. simpl.
      destruct (claimant_of_mapping <$> later) as [|c cs]; reflexivity.
    + destruct (filter _ E) as [|m0 later];
        [|exfalso; by apply Htaken, Hused].
      simpl. split; [|done].
      split; [done | intros _; apply elem_of_union_l; by apply elem_of_singleton].
  - rewrite (filter_cons_False _ (mapping_of instance r _)) by done.
    rewrite filter_nil, app_nil_r.
    case_bool_decide as Htaken.
    + split; [done|]. by rewrite lookup_insert_ne.
    + split; [|done]. rewrite <- Hused, elem_of_union, elem_of_singleton.
      split; [intros [?|?]; [congruence | done] | by right].
Qed.

Lemma assign_ports_account (instance : string) (ports : list PortInfo)
    (st : AllocState) (E : list Mapping) :
  conflicts_account E st →
  conflicts_account (E ++ emitted instance st ports)
    (foldl (assign_port instance) st ports).
Proof.
  revert st E. induction ports as [|r ports IH]; intros st E Hinv; simpl.
  - now rewrite app_nil_r.
  - rewrite cons_middle, (assoc_L (++)). by apply IH, assign_port_account.
Qed.

Lemma assign_instances_account (all_instances : list InstanceInfo)
    (st : AllocState) (E : list Mapping) :
  conflicts_account E st →
  conflicts_account (E ++ mjoin (snd <$> plan_rows st all_instances))
    (foldl assign_instance st all_instances).
Proof.
  revert st E. induction all_instances as [|info rest IH]; intros st E Hinv;
    simpl.
  - now rewrite app_nil_r.
  - destruct (ii_accessible info) eqn:Hacc.
    + rewrite fmap_cons. cbn [mjoin list_join snd].
      rewrite (assoc_L (++)). apply IH.
      rewrite assign_instance_accessible by done.
      by apply assign_ports_account.
    + rewrite assign_instance_inaccessible by done. by apply IH.
Qed.

(** The plan and the conflicts that [assign_external_ports] returns, for
    distinct names. *)
Lemma assign_external_ports_account (all_instances : list InstanceInfo) :
  NoDup (ii_instance <$> reachable all_instances) →
  ∀ external_port,
    (assign_external_ports all_instances).2 !! external_port
    = entry_of (claimant_of_mapping
                <$> tail (with_port external_port
                            (plan_mappings (assign_external_ports all_instances).1))).
Proof.
  intros Hnd e. rewrite assign_external_ports_plan by done.
  rewrite <- plan_rows_reachable.
  unfold assign_external_ports, plan_mappings, PyDict.values. cbn [snd].
  assert (Hinit : conflicts_account [] initial_state).
  { intros e'. split; [|done]. split; [by intros ?%not_elem_of_empty | done]. }
  by destruct (assign_instances_account all_instances _ _ Hinit e) as [_ ?].
Qed.

(** X6. For distinct names of the accessible instances, the conflicts are
    read off the plan: an external port that no mapping or a single mapping
    of the plan has is not a key of [conflicts]; for a port that several
    mappings have, the entry lists them in plan order, as instance,
    internal port and label, the first one left out. *)
Theorem conflicts_are_later_mappings (all_instances : list InstanceInfo)
    (external_port : Z) :
  NoDup (ii_instance <$> reachable all_instances) →
  match with_port external_port
          (plan_mappings (assign_external_ports all_instances).1) with
  | [] | [_] => (assign_external_ports all_instances).2 !! external_port = None
  | _ :: later =>
      (assign_external_ports all_instances).2 !! external_port
      = Some (claimant_of_mapping <$> later)
  end.
Proof.
  intros Hnd. rewrite (assign_external_ports_account _ Hnd external_port).
  by destruct (with_port _ _) as [|m0 [|m1 later]].
Qed.

Lemma conflicts_are_later_mappings_witness :
  (assign_external_ports dev_clash).2 !! 9001
  = Some [claimant_of "Ubuntu" (record 3000 "Node.js Dev")].
Proof.
  pose proof (conflicts_are_later_mappings dev_clash 9001) as H.
  apply H. apply (bool_decide_unpack _). vm_compute. exact I.
Defined.

Lemma NoDup_fmap_filter {A B : Type} `{EqDecision B} (f : A → B) (l : list A) :
  NoDup (f <$> l) ↔ ∀ y, tail (filter (λ x, f x = y) l) = [].
Proof.
  induction l as [|x l IH]; simpl.
  - split; [done | intros _; apply NoDup_nil_2].
  - rewrite NoDup_cons, IH. split.
    + intros [Hx Hl] y. destruct (decide (f x = y)) as [<-|Hne].
      * rewrite filter_cons_True by done. simpl.
        destruct (filter _ l) as [|x' l'] eqn:Hf; [done|].
        exfalso. apply Hx, list_elem_of_fmap. exists x'.
        assert (Hin : x' ∈ filter (λ x0, f x0 = f x) l)
          by (rewrite Hf; apply list_elem_of_here).
        apply list_elem_of_filter in Hin as [-> ?]. done.
      * rewrite filter_cons_False by done. apply Hl.
    + intros Hall. split.
      * intros (x' & Heq & Hin)%list_elem_of_fmap.
        specialize (Hall (f x)). rewrite filter_cons_True in Hall by done.
        simpl in Hall.
        assert (Hin' : x' ∈ filter (λ x0, f x0 = f x) l)
          by (by apply list_elem_of_filter).
        rewrite Hall in Hin'. by apply elem_of_nil in Hin'.
      * intros y. specialize (Hall y).
        destruct (decide (f x = y)) as [<-|Hne].
        -- rewrite filter_cons_True in Hall by done. simpl in Hall.
           now rewrite Hall.
        -- now rewrite filter_cons_False in Hall.
Qed.

(** X7. For distinct names of the accessible instances, the external ports
    of the plan are pairwise distinct exactly when no conflict is
    recorded. *)
Theorem distinct_ports_iff_no_conflict (all_instances : list InstanceInfo) :
  NoDup (ii_instance <$> reachable all_instances) →
  NoDup (m_port <$> plan_mappings (assign_external_ports all_instances).1)
  ↔ (assign_external_ports all_instances).2 = ∅.
Proof.
  intros Hnd. rewrite NoDup_fmap_filter, map_empty.
  split; intros Hall e; specialize (Hall e);
    rewrite (assign_external_ports_account _ Hnd e) in *;
    unfold with_port in *.
  - now rewrite Hall.
  - by destruct (tail _).
Qed.

Lemma distinct_ports_iff_no_conflict_witness :
  NoDup (m_port <$> plan_mappings (assign_external_ports fallback_pair).1).
Proof.
  apply (distinct_ports_iff_no_conflict fallback_pair).
  - apply (bool_decide_unpack _). vm_compute. exact I.
  - reflexivity.
Defined.

(** ** The counters *)

Lemma counter_of_bump (rule rule' : Rule) (c : Counters) :
  rule ≠ RuleOther →
  counter_of rule (bump rule' c)
  = counter_of rule c + (if decide (rule' = rule) then 1 else 0).
Proof. destruct rule, rule'; simpl; intros ?; try done; lia. Qed.

Lemma external_for_counter (rule : Rule) (c : Counters) (used : gset Z)
    (internal_port : Z) :
  rule ≠ RuleOther → external_for rule c used internal_port = counter_of rule c.
Proof. by destruct rule. Qed.

Lemma uses_of_snoc (rule : Rule) (E : list Mapping) (m : Mapping) :
  uses_of rule (E ++ [m])
  = uses_of rule E + (if decide (rule_of_mapping m = rule) then 1 else 0).
Proof.
  unfold uses_of. rewrite filter_app, length_app.
  case_decide.
  - rewrite filter_cons_True by done. simpl. lia.
  - rewrite filter_cons_False by done. simpl. lia.
Qed.

Lemma assign_port_counters (instance : string) (st : AllocState) (r : PortInfo)
    (E : list Mapping) :
  counters_account E st →
  counters_account (E ++ [mapping_of instance r (external_port_of st r)])
    (assign_port instance st r).
Proof.
  intros [Hcount Hports].
  set (m := mapping_of instance r (external_port_of st r)).
  assert (Hrule : rule_of_mapping m
                  = select_rule (pi_service_type r) (pi_port r)) by done.
  split.
  - intros rule Hrule'. unfold assign_port. cbn [counters].
    rewrite counter_of_bump, uses_of_snoc, Hcount, Hrule by done. lia.
  - intros k m' Hk Hm'.
    destruct (decide (k < length E)%nat) as [Hlt|Hge].
    + rewrite lookup_app_l in Hk by done.
      rewrite take_app_le by lia. by apply Hports.
    + rewrite lookup_app_r in Hk by lia.
      apply list_lookup_singleton_Some in Hk as [Hk <-].
      assert (k = length E) as -> by lia.
      rewrite take_app_length.
      rewrite Hrule in *. subst m. cbn [m_port mapping_of].
      unfold external_port_of.
      rewrite external_for_counter by done. by apply Hcount.
Qed.

Lemma assign_ports_counters (instance : string) (ports : list PortInfo)
    (st : AllocState) (E : list Mapping) :
  counters_account E st →
  counters_account (E ++ emitted instance st ports)
    (foldl (assign_port instance) st ports).
Proof.
  revert st E. induction ports as [|r ports IH]; intros st E Hinv; simpl.
  - now rewrite app_nil_r.
  - rewrite cons_middle, (assoc_L (++)). by apply IH, assign_port_counters.
Qed.

Lemma assign_instances_counters (all_instances : list InstanceInfo)
    (st : AllocState) (E : list Mapping) :
  counters_account E st →
  counters_account (E ++ mjoin (snd <$> plan_rows st all_instances))
    (foldl assign_instance st all_instances).
Proof.
  revert st E. induction all_instances as [|info rest IH]; intros st E Hinv;
    simpl.
  - now rewrite app_nil_r.
  - destruct (ii_accessible info) eqn:Hacc.
    + rewrite fmap_cons. cbn [mjoin list_join snd].
      rewrite (assoc_L (++)). apply IH.
      rewrite assign_instance_accessible by done.
      by apply (assign_ports_counters _ _ (enter st (ii_instance info))).
    + rewrite assign_instance_inaccessible by done. by apply IH.
Qed.

(** X8. For distinct names of the accessible instances, a mapping whose
    record took one of the seven counter branches has the initial value of
    that counter plus the number of mappings before it in the plan that
    took the same branch: the SSH mappings are 2201, 2202, ... in plan
    order, and so on for the other counters. *)
Theorem counter_ports_in_sequence (all_instances : list InstanceInfo)
    (k : nat) (m : Mapping) :
  NoDup (ii_instance <$> reachable all_instances) →
  plan_mappings (assign_external_ports all_instances).1 !! k = Some m →
  rule_of_mapping m ≠ RuleOther →
  m_port m
  = counter_of (rule_of_mapping m) initial_counters
    + uses_of (rule_of_mapping m)
        (take k (plan_mappings (assign_external_ports all_instances).1)).
Proof.
  intros Hnd. rewrite assign_external_ports_plan by done.
  rewrite <- plan_rows_reachable. unfold plan_mappings, PyDict.values.
  assert (Hinit : counters_account [] initial_state).
  { split; [intros rule _; unfold uses_of; simpl; lia | done]. }
  destruct (assign_instances_counters all_instances _ _ Hinit) as [_ Hports].
  apply Hports.
Qed.

Lemma counter_ports_in_sequence_witness :
  ∃ m, plan_mappings (assign_external_ports ssh_and_web).1 !! 3%nat = Some m
       ∧ m_distro m = "Alpine" ∧ m_port m = 2203.
Proof.
  eexists. split; [reflexivity|]. split; [reflexivity|].
  rewrite (counter_ports_in_sequence ssh_and_web 3 _).
  - reflexivity.
  - apply (bool_decide_unpack _). vm_compute. exact I.
  - reflexivity.
  - discriminate.
Defined.

(** ** The rows of the plan *)

Section dict_rows.
Context {K V : Type} `{EqDecision K}.
Implicit Types (d : PyDict.t K V) (k : K) (v : V).

Lemma dict_keys_update d k (f : V → V) :
  PyDict.keys (PyDict.update k f d) = PyDict.keys d.
Proof.
  unfold PyDict.keys. induction d as [|[k' v'] d IH]; simpl; [done|].
  case_decide; simpl; [done | f_equal; apply IH].
Qed.

Lemma dict_keys_set d k v :
  PyDict.keys (PyDict.set k v d)
  = if decide (k ∈ PyDict.keys d) then PyDict.keys d else PyDict.keys d ++ [k].
Proof.
  induction d as [|[k' v'] d IH].
  - change (PyDict.keys (PyDict.set k v [])) with [k].
    change (PyDict.keys ([] : PyDict.t K V)) with ([] : list K).
    rewrite decide_False; [done | apply not_elem_of_nil].
  - change (PyDict.keys ((k', v') :: d)) with (k' :: PyDict.keys d).
    cbn [PyDict.set]. destruct (decide (k' = k)) as [->|Hk].
    + rewrite decide_True; [reflexivity | apply list_elem_of_here].
    + change (PyDict.keys ((k', v') :: PyDict.set k v d))
        with (k' :: PyDict.keys (PyDict.set k v d)).
      rewrite IH. destruct (decide (k ∈ PyDict.keys d)) as [Hin|Hnin].
      * rewrite decide_True; [reflexivity | by apply list_elem_of_further].
      * rewrite decide_False; [reflexivity|].
        rewrite not_elem_of_cons. split; [congruence | done].
Qed.

Lemma dict_rows_update (P : K → V → Prop) d k (f : V → V) :
  (∀ v, P k v → P k (f v)) →
  Forall (λ row, P row.1 row.2) d →
  Forall (λ row, P row.1 row.2) (PyDict.update k f d).
Proof.
  intros Hf. induction 1 as [|[k' v'] d Hrow Hd IH]; simpl; [done|].
  case_decide; subst; constructor; simpl in *; auto.
Qed.

Lemma dict_rows_set (P : K → V → Prop) d k v :
  P k v →
  Forall (λ row, P row.1 row.2) d →
  Forall (λ row, P row.1 row.2) (PyDict.set k v d).
Proof.
  intros Hv. induction 1 as [|[k' v'] d Hrow Hd IH]; simpl.
  - by repeat constructor.
  - case_decide; subst; constructor; simpl in *; auto.
Qed.
End dict_rows.

Lemma assign_ports_keys (instance : string) (ports : list PortInfo)
    (st : AllocState) :
  PyDict.keys (port_assignments (foldl (assign_port instance) st ports))
  = PyDict.keys (port_assignments st).
Proof.
  revert st. induction ports as [|r ports IH]; intros st; simpl; [done|].
  rewrite IH. unfold assign_port. cbn [port_assignments].
  apply dict_keys_update.
Qed.

Lemma assign_instances_keys (all_instances : list InstanceInfo) (st : AllocState) :
  NoDup (PyDict.keys (port_assignments st)) →
  NoDup (PyDict.keys (port_assignments (foldl assign_instance st all_instances)))
  ∧ ∀ name,
      name ∈ PyDict.keys (port_assignments (foldl assign_instance st all_instances))
      ↔ name ∈ PyDict.keys (port_assignments st)
        ∨ name ∈ ii_instance <$> reachable all_instances.
Proof.
  unfold reachable. revert st.
  induction all_instances as [|info rest IH]; intros st Hnd; simpl.
  - split; [done|]. intros name.
    split; [auto | intros [?|Hin]; [done | by apply elem_of_nil in Hin]].
  - destruct (ii_accessible info) eqn:Hacc.
    + rewrite filter_cons_True by done.
      assert (Hkeys : PyDict.keys (port_assignments (assign_instance st info))
                      = PyDict.keys (PyDict.set (ii_instance info) []
                                       (port_assignments st))).
      { rewrite assign_instance_accessible by done.
        apply assign_ports_keys. }
      rewrite dict_keys_set in Hkeys.
      destruct (IH (assign_instance st info)) as [Hnd' Hmem].
      { rewrite Hkeys. case_decide as Hin; [done|].
        apply NoDup_app. split_and!; [done | | apply NoDup_singleton].
        intros x Hx ->%list_elem_of_singleton. done. }
      split; [done|]. intros name. rewrite Hmem, Hkeys, fmap_cons, elem_of_cons.
      case_decide as Hin.
      * split; [tauto|]. intros [?|[->|?]]; auto.
      * rewrite elem_of_app, list_elem_of_singleton. tauto.
    + rewrite filter_cons_False by congruence.
      rewrite assign_instance_inaccessible by done. by apply IH.
Qed.

(** X9. Whatever the input, the rows of the plan have pairwise distinct
    names, and the names of the rows are the names of the accessible
    instances of the input. *)
Theorem plan_row_names (all_instances : list InstanceInfo) :
  NoDup (PyDict.keys (assign_external_ports all_instances).1)
  ∧ ∀ name,
      name ∈ PyDict.keys (assign_external_ports all_instances).1
      ↔ name ∈ ii_instance <$> reachable all_instances.
Proof.
  unfold assign_external_ports. cbn [fst].
  destruct (assign_instances_keys all_instances initial_state) as [Hnd Hmem];
    [apply NoDup_nil_2|].
  split; [done|]. intros name. rewrite Hmem. simpl. rewrite elem_of_nil. tauto.
Qed.

Lemma plan_row_names_witness :
  PyDict.keys (assign_external_ports dev_clash).1 = ["Ubuntu"; "Alpine"]
  ∧ ("Debian" ∉ PyDict.keys (assign_external_ports dev_clash).1).
Proof.
  split; [reflexivity|].
  intros Hin%(proj2 (plan_row_names dev_clash)).
  vm_compute in Hin.
  repeat (apply elem_of_cons in Hin as [Hin|Hin]; [discriminate|]).
  by apply elem_of_nil in Hin.
Defined.

Lemma assign_instances_rows (all_instances : list InstanceInfo) (st : AllocState) :
  Forall (λ row, Forall (well_formed_mapping row.1) row.2) (port_assignments st) →
  Forall (λ row, Forall (well_formed_mapping row.1) row.2)
    (port_assignments (foldl assign_instance st all_instances)).
Proof.
  revert st. induction all_instances as [|info rest IH]; intros st Hst; simpl;
    [done|].
  apply IH. destruct (ii_accessible info) eqn:Hacc;
    [|now rewrite assign_instance_inaccessible].
  rewrite assign_instance_accessible by done.
  assert (Henter : Forall (λ row, Forall (well_formed_mapping row.1) row.2)
                     (port_assignments (enter st (ii_instance info)))).
  { unfold enter. cbn [port_assignments].
    by apply (dict_rows_set (λ k ms, Forall (well_formed_mapping k) ms)). }
  revert Henter. generalize (enter st (ii_instance info)).
  induction (ii_ports info) as [|r ports IHp]; intros st' Hst'; simpl; [done|].
  apply IHp. unfold assign_port. cbn [port_assignments].
  apply (dict_rows_update (λ k ms, Forall (well_formed_mapping k) ms)); [|done].
  intros ms Hms. apply Forall_app. split; [done|]. by repeat constructor.
Qed.

(** X10. Whatever the input, every mapping of the plan stands in the row of
    the instance it names: its [distro] is the name of the row, its [name]
    is that name, a space and its label, and its protocol, firewall and
    listen address are "tcp", "local" and "0.0.0.0". *)
Theorem plan_rows_well_formed (all_instances : list InstanceInfo)
    (name : string) (ms : list Mapping) (m : Mapping) :
  (name, ms) ∈ (assign_external_ports all_instances).1 → m ∈ ms →
  well_formed_mapping name m.
Proof.
  intros Hrow Hm.
  assert (Hall : Forall (λ row, Forall (well_formed_mapping row.1) row.2)
                   (assign_external_ports all_instances).1)
    by (apply (assign_instances_rows all_instances initial_state); constructor).
  rewrite Forall_forall in Hall. specialize (Hall (name, ms) Hrow).
  cbn [fst snd] in Hall. rewrite Forall_forall in Hall. by apply Hall.
Qed.

Lemma plan_rows_well_formed_witness :
  well_formed_mapping "Ubuntu" (mapping_of "Ubuntu" (record 3000 "Node.js Dev") 9001).
Proof.
  apply (plan_rows_well_formed dev_clash "Ubuntu"
           [mapping_of "Ubuntu" (record 9001 "Unknown") 9001;
            mapping_of "Ubuntu" (record 3000 "Node.js Dev") 9001]).
  - vm_compute. apply list_elem_of_here.
  - apply list_elem_of_further, list_elem_of_here.
Defined.

(** ** The figures of the report *)

Lemma insert_by_port_length (x : PortInfo) (sorted : list PortInfo) :
  length (insert_by_port x sorted) = S (length sorted).
Proof.
  induction sorted as [|y rest IH]; simpl; [done|].
  destruct (_ <? _); simpl; [done | by rewrite IH].
Qed.

Lemma sorted_by_port_length (ports : list PortInfo) :
  length (sorted_by_port ports) = length ports.
Proof.
  unfold sorted_by_port.
  assert (Hgen : ∀ acc, length (foldl (λ sorted x, insert_by_port x sorted) acc ports)
                        = (length acc + length ports)%nat).
  { induction ports as [|x ports IH]; intros acc; simpl; [lia|].
    rewrite IH, insert_by_port_length. lia. }
  by rewrite Hgen.
Qed.

Lemma count_loop {A : Type} (l : list A) (total : Z) :
  foldl (λ total _, total + 1) total l = total + Z.of_nat (length l).
Proof.
  revert total. induction l as [|x l IH]; intros total; simpl; [lia|].
  rewrite IH. lia.
Qed.

Lemma total_accessible_length (all_instances : list InstanceInfo) :
  total_accessible all_instances = Z.of_nat (length (reachable all_instances)).
Proof.
  unfold total_accessible, reachable.
  assert (Hgen : ∀ total,
            foldl (λ total info, if ii_accessible info then total + 1 else total)
              total all_instances
            = total + Z.of_nat (length (filter (λ info, ii_accessible info = true)
                                          all_instances))).
  { induction all_instances as [|info rest IH]; intros total; simpl; [lia|].
    rewrite IH. destruct (ii_accessible info) eqn:Hacc.
    - rewrite filter_cons_True by done. simpl. lia.
    - rewrite filter_cons_False by congruence. lia. }
  rewrite Hgen. lia.
Qed.

Lemma total_mappings_length (all_instances : list InstanceInfo) :
  total_mappings all_instances
  = Z.of_nat (length (reachable_ports all_instances)).
Proof.
  unfold total_mappings, reachable_ports, reachable.
  assert (Hgen : ∀ total,
            foldl (λ total info,
                     if negb (ii_accessible info) then total
                     else match ii_ports info with
                          | [] => total
                          | _ => foldl (λ total _, total + 1) total
                                   (sorted_by_port (ii_ports info))
                          end)
              total all_instances
            = total + Z.of_nat (length (filter (λ info, ii_accessible info = true)
                                          all_instances ≫= ii_ports))).
  { induction all_instances as [|info rest IH]; intros total; [simpl; lia|].
    cbn [foldl]. rewrite IH. destruct (ii_accessible info) eqn:Hacc; cbn [negb].
    - rewrite filter_cons_True by done. rewrite bind_cons, length_app.
      destruct (ii_ports info) as [|r ports] eqn:Hports; [simpl; lia|].
      rewrite count_loop, sorted_by_port_length. lia.
    - rewrite filter_cons_False by congruence. lia. }
  rewrite Hgen. lia.
Qed.

Lemma total_port_mappings_length (all_instances : list InstanceInfo) :
  total_port_mappings (build_config all_instances)
  = Z.of_nat (length (plan_mappings (assign_external_ports all_instances).1)).
Proof.
  unfold total_port_mappings, build_config, plan_mappings, PyDict.values.
  cbn [instances].
  generalize (assign_external_ports all_instances).1. intros plan.
  assert (Hgen : ∀ total,
            foldl (λ total ic, total + Z.of_nat (length (ic_ports ic))) total
              (instance_config_of <$> plan)
            = total + Z.of_nat (length (mjoin plan.*2))).
  { induction plan as [|[name ms] plan IH]; intros total; [simpl; lia|].
    rewrite !fmap_cons. cbn [foldl]. rewrite IH.
    cbn [instance_config_of ic_ports snd]. rewrite length_fmap.
    change (mjoin (ms :: plan.*2)) with (ms ++ mjoin plan.*2).
    rewrite length_app. lia. }
  rewrite Hgen. lia.
Qed.

Lemma emitted_length (instance : string) (ports : list PortInfo) (st : AllocState) :
  length (emitted instance st ports) = length ports.
Proof.
  revert st. induction ports as [|r ports IH]; intros st; simpl; [done|].
  by rewrite IH.
Qed.

Lemma plan_rows_length (all_instances : list InstanceInfo) (st : AllocState) :
  length (plan_rows st all_instances) = length (reachable all_instances)
  ∧ length (mjoin (snd <$> plan_rows st all_instances))
    = length (reachable_ports all_instances).
Proof.
  unfold reachable_ports, reachable. revert st.
  induction all_instances as [|info rest IH]; intros st; [done|]. simpl.
  destruct (ii_accessible info) eqn:Hacc.
  - rewrite filter_cons_True by done. rewrite fmap_cons, bind_cons.
    cbn [snd length].
    change (mjoin (?ms :: ?rows)) with (ms ++ mjoin rows).
    rewrite !length_app, emitted_length.
    destruct (IH (assign_instance st info)) as [-> ->]. done.
  - rewrite filter_cons_False by congruence. apply IH.
Qed.

Lemma counts_total_bump (counts : gmap string Z) (label : string) :
  counts_total (<[label := default 0 (counts !! label) + 1]> counts)
  = counts_total counts + 1.
Proof.
  unfold counts_total.
  assert (Hcomm : ∀ (m : gmap string Z) (j1 j2 : string) (z1 z2 y : Z),
            j1 ≠ j2 → m !! j1 = Some z1 → m !! j2 = Some z2 →
            z1 + (z2 + y) = z2 + (z1 + y)) by (intros; lia).
  destruct (counts !! label) as [count|] eqn:Hlabel; cbn [default].
  - rewrite <- (insert_delete_eq counts).
    rewrite map_fold_insert_L; [|apply Hcomm | apply lookup_delete_eq].
    rewrite (map_fold_delete_L _ _ label count counts);
      [unfold id; cbn beta; lia | apply Hcomm | done].
  - rewrite map_fold_insert_L; [unfold id; cbn beta; lia | apply Hcomm | done].
Qed.

Lemma service_counts_total (all_instances : list InstanceInfo) :
  counts_total (service_counts all_instances)
  = Z.of_nat (length (reachable_ports all_instances)).
Proof.
  unfold service_counts, reachable_ports, reachable.
  assert (Hinner : ∀ ports counts,
            counts_total
              (foldl (λ counts port_info,
                        <[pi_service_type port_info :=
                            default 0 (counts !! pi_service_type port_info) + 1]>
                          counts) counts ports)
            = counts_total counts + Z.of_nat (length ports)).
  { induction ports as [|r ports IH]; intros counts; simpl; [lia|].
    rewrite IH, counts_total_bump. lia. }
  assert (Hgen : ∀ counts,
            counts_total
              (foldl (λ counts info,
                        if ii_accessible info
                        then foldl (λ counts port_info,
                               <[pi_service_type port_info :=
                                   default 0 (counts !! pi_service_type port_info) + 1]>
                                 counts) counts (ii_ports info)
                        else counts) counts all_instances)
            = counts_total counts
              + Z.of_nat (length (filter (λ info, ii_accessible info = true)
                                    all_instances ≫= ii_ports))).
  { induction all_instances as [|info rest IH]; intros counts; [simpl; lia|].
    cbn [foldl]. rewrite IH. destruct (ii_accessible info) eqn:Hacc.
    - rewrite filter_cons_True by done. rewrite bind_cons, length_app, Hinner. lia.
    - rewrite filter_cons_False by congruence. lia. }
  rewrite Hgen. unfold counts_total. rewrite map_fold_empty. lia.
Qed.

(** X11. The figures of the report agree: the per-label counts add up to
    the number of records listed in the detailed results; and when the
    accessible instances have distinct names, the configuration has as
    many instances as there are accessible ones and as many port entries
    as there are records listed. *)
Theorem report_figures_agree (all_instances : list InstanceInfo) :
  counts_total (service_counts all_instances) = total_mappings all_instances
  ∧ (NoDup (ii_instance <$> reachable all_instances) →
     total_in_config (build_config all_instances)
     = total_accessible all_instances
     ∧ total_port_mappings (build_config all_instances)
       = total_mappings all_instances).
Proof.
  split.
  - by rewrite service_counts_total, total_mappings_length.
  - intros Hnd.
    rewrite total_port_mappings_length, total_accessible_length,
      total_mappings_length.
    unfold total_in_config, build_config, plan_mappings, PyDict.values.
    cbn [instances]. rewrite length_fmap.
    rewrite assign_external_ports_plan by done.
    rewrite <- plan_rows_reachable.
    destruct (plan_rows_length all_instances initial_state) as [-> ->]. done.
Qed.

Lemma report_figures_agree_witness :
  total_in_config (build_config dev_clash) = 2
  ∧ total_port_mappings (build_config dev_clash) = 3.
Proof.
  destruct (proj2 (report_figures_agree dev_clash)) as [-> ->].
  - apply (bool_decide_unpack _). vm_compute. exact I.
  - split; reflexivity.
Defined.

(** ** The list of instances *)

Lemma chars_of_list (l : list ascii) : chars (string_of_list_ascii l) = l.
Proof. apply list_ascii_of_string_of_list_ascii. Qed.

Lemma split_ws_aux_tokens (s : string) (cur : list ascii) (t : string) :
  Forall (λ c, PyStr.is_space c = false) cur →
  t ∈ PyStr.split_ws_aux cur s →
  t ≠ "" ∧ Forall (λ c, PyStr.is_space c = false) (chars t).
Proof.
  assert (Hflush : ∀ c cur,
            Forall (λ c, PyStr.is_space c = false) (c :: cur) →
            string_of_list_ascii (rev (c :: cur)) ≠ ""
            ∧ Forall (λ c, PyStr.is_space c = false)
                (chars (string_of_list_ascii (rev (c :: cur))))).
  { intros c cur' Hcur. split.
    - intros Heq. apply (f_equal chars) in Heq. rewrite chars_of_list in Heq.
      apply (f_equal length) in Heq. rewrite length_rev in Heq. done.
    - rewrite chars_of_list. by apply Forall_rev. }
  revert cur. induction s as [|c s IH]; intros cur Hcur; simpl.
  - destruct cur as [|c' cur]; [by intros ?%elem_of_nil|].
    intros ->%list_elem_of_singleton. by apply Hflush.
  - destruct (PyStr.is_space c) eqn:Hc.
    + destruct cur as [|c' cur]; [by apply IH|].
      intros [->|Hin]%elem_of_cons; [by apply Hflush | by apply (IH [])].
    + apply IH. by constructor.
Qed.

Lemma lstrip_token (t : string) :
  Forall (λ c, PyStr.is_space c = false) (chars t) → PyStr.lstrip t = t.
Proof.
  destruct t as [|c t]; [done|]. simpl.
  intros [Hc _]%Forall_cons. by rewrite Hc.
Qed.

Lemma rstrip_token (t : string) :
  Forall (λ c, PyStr.is_space c = false) (chars t) → PyStr.rstrip t = t.
Proof.
  induction t as [|c t IH]; [done|]. simpl.
  intros [Hc Ht]%Forall_cons. rewrite (IH Ht), Hc. by destruct t.
Qed.

Lemma instance_of_line_Some (line name : string) :
  instance_of_line line = Some name →
  name ≠ "" ∧ name ≠ "NAME"
  ∧ Forall (λ c, PyStr.is_space c = false) (chars name).
Proof.
  unfold instance_of_line. case_decide; [done|].
  destruct (3 <=? _)%nat; [|done].
  set (parts := PyStr.split_ws _).
  assert (Htok : ∀ i, Forall (λ c, PyStr.is_space c = false)
                        (chars (default "" (parts !! i)))).
  { intros i. destruct (parts !! i) as [t|] eqn:Hi; [|constructor].
    apply list_elem_of_lookup_2 in Hi.
    by apply (split_ws_aux_tokens _ []) in Hi as [_ ?]. }
  destruct (decide (parts !! 0%nat = Some "*")) as [Hstar|Hstar].
  - unfold PyStr.strip. rewrite lstrip_token, rstrip_token by apply Htok.
    case_decide as Hname; [|done]. intros [= <-].
    destruct Hname. split_and!; [done | done | apply Htok].
  - unfold PyStr.strip. rewrite lstrip_token, rstrip_token by apply Htok.
    case_decide as Hname; [|done]. intros [= <-].
    destruct Hname. split_and!; [done | done | apply Htok].
Qed.

Lemma omap_length_le {A B : Type} (f : A → option B) (l : list A) :
  (length (omap f l) ≤ length l)%nat.
Proof.
  induction l as [|x l IH]; [done|]. csimpl. destruct (f x); simpl; lia.
Qed.

(** X12. Whatever the command prints, a name that [get_wsl_instances]
    returns is not empty, holds no white space and is not the word NAME;
    the first line of the output is never read as an instance, so there
    are fewer names than lines; and a failed command yields no name. *)
Theorem instance_names_well_formed (returncode : Z) (output : string) :
  (returncode ≠ 0 → get_wsl_instances returncode output = [])
  ∧ (length (get_wsl_instances returncode output)
     < length (PyStr.split_on "010" (PyStr.strip output)))%nat
  ∧ ∀ name, name ∈ get_wsl_instances returncode output →
      name ≠ "" ∧ name ≠ "NAME"
      ∧ Forall (λ c, PyStr.is_space c = false) (chars name).
Proof.
  unfold get_wsl_instances.
  assert (Hlines : PyStr.split_on "010" (PyStr.strip output) ≠ []).
  { generalize (PyStr.strip output). intros s.
    destruct s as [|c s]; simpl; [done|].
    destruct (Ascii.eqb c "010"); [done|]. by destruct (PyStr.split_on _ s). }
  split_and!.
  - intros Hrc. by destruct (Z.eqb_spec returncode 0).
  - destruct (negb _); simpl.
    + destruct (PyStr.split_on _ _); [done | simpl; lia].
    + destruct (PyStr.split_on _ _) as [|l ls]; [done|]. simpl.
      pose proof (omap_length_le instance_of_line ls). lia.
  - intros name. destruct (negb _); [by intros ?%elem_of_nil|].
    intros (line & _ & Hline)%list_elem_of_omap.
    by eapply instance_of_line_Some.
Qed.

Lemma instance_names_well_formed_witness :
  get_wsl_instances 0 wsl_listing = ["Ubuntu"; "Debian"]
  ∧ "Ubuntu" ≠ "NAME".
Proof.
  split; [reflexivity|].
  apply (instance_names_well_formed 0 wsl_listing).
  vm_compute. apply list_elem_of_here.
Defined.

(** ** Reading back a listing of instances *)

Lemma string_of_chars (s : string) : string_of_list_ascii (chars s) = s.
Proof. apply string_of_list_ascii_of_string. Qed.

Lemma rev_chars_nonempty (t : string) : t ≠ "" → rev (chars t) ≠ [].
Proof.
  destruct t as [|c t]; [done|]. simpl. intros _ Hrev.
  by apply app_eq_nil in Hrev as [_ ?].
Qed.

Lemma split_ws_aux_word (t s : string) (cur : list ascii) :
  Forall (λ c, PyStr.is_space c = false) (chars t) →
  PyStr.split_ws_aux cur (t +:+ s) = PyStr.split_ws_aux (rev (chars t) ++ cur) s.
Proof.
  revert cur. induction t as [|c t IH]; intros cur; [done|].
  intros [Hc Ht]%Forall_cons. simpl.
  rewrite Hc, (IH _ Ht). now rewrite <- app_assoc.
Qed.

Lemma split_ws_word_space (t s : string) (c : ascii) :
  token t → PyStr.is_space c = true →
  PyStr.split_ws_aux [] (t +:+ String c s) = t :: PyStr.split_ws_aux [] s.
Proof.
  intros [Hne Ht] Hc. rewrite split_ws_aux_word by done. rewrite app_nil_r.
  simpl. rewrite Hc.
  destruct (rev (chars t)) as [|c' cur] eqn:Hrev.
  - by apply rev_chars_nonempty in Hrev.
  - rewrite <- Hrev, rev_involutive, string_of_chars. done.
Qed.

Lemma split_ws_aux_end (t : string) (cur : list ascii) :
  Forall (λ c, PyStr.is_space c = false) (chars t) →
  PyStr.split_ws_aux cur t
  = match rev (chars t) ++ cur with
    | [] => []
    | l => [string_of_list_ascii (rev l)]
    end.
Proof.
  revert cur. induction t as [|c t IH]; intros cur; [by destruct cur|].
  intros [Hc Ht]%Forall_cons. simpl.
  rewrite Hc, (IH _ Ht). now rewrite <- app_assoc.
Qed.

Lemma split_ws_word_end (t : string) :
  token t → PyStr.split_ws_aux [] t = [t].
Proof.
  intros [Hne Ht]. rewrite split_ws_aux_end by done. rewrite app_nil_r.
  destruct (rev (chars t)) as [|c' cur] eqn:Hrev.
  - by apply rev_chars_nonempty in Hrev.
  - rewrite <- Hrev, rev_involutive, string_of_chars. done.
Qed.

Lemma lstrip_word (t s : string) : token t → PyStr.lstrip (t +:+ s) = t +:+ s.
Proof.
  intros [Hne Ht]. destruct t as [|c t]; [done|].
  apply Forall_cons in Ht as [Hc _]. simpl. by rewrite Hc.
Qed.

Lemma rstrip_app (a s r : string) :
  PyStr.rstrip s = r → r ≠ "" → PyStr.rstrip (a +:+ s) = a +:+ r.
Proof.
  intros <- Hne. induction a as [|c a IH]; [done|].
  simpl. rewrite IH.
  change (String c a +:+ PyStr.rstrip s) with (String c (a +:+ PyStr.rstrip s)).
  destruct (a +:+ PyStr.rstrip s) eqn:Happ; [|done].
  destruct a; [done | discriminate].
Qed.

Lemma rstrip_spaces (ws : string) :
  Forall (λ c, PyStr.is_space c = true) (chars ws) → PyStr.rstrip ws = "".
Proof.
  induction ws as [|c ws IH]; [done|].
  intros [Hc Hws]%Forall_cons. simpl. by rewrite (IH Hws), Hc.
Qed.

Lemma rstrip_word_spaces (t ws : string) :
  Forall (λ c, PyStr.is_space c = false) (chars t) →
  Forall (λ c, PyStr.is_space c = true) (chars ws) →
  PyStr.rstrip (t +:+ ws) = t.
Proof.
  intros Ht Hws. induction t as [|c t IH]; [by apply rstrip_spaces|].
  apply Forall_cons in Ht as [Hc Ht].
  simpl. rewrite (IH Ht), Hc. by destruct t.
Qed.

Lemma split_on_line (sep : ascii) (l rest : string) :
  sep ∉ chars l →
  PyStr.split_on sep (l +:+ String sep rest) = l :: PyStr.split_on sep rest.
Proof.
  induction l as [|c l IH]; intros Hl.
  - simpl. by rewrite Ascii.eqb_refl.
  - apply not_elem_of_cons in Hl as [Hc Hl].
    simpl.
    destruct (Ascii.eqb_spec c sep) as [->|_]; [done|]. by rewrite (IH Hl).
Qed.

Lemma split_on_last (sep : ascii) (l : string) :
  sep ∉ chars l → PyStr.split_on sep l = [l].
Proof.
  induction l as [|c l IH]; intros Hl; [done|].
  apply not_elem_of_cons in Hl as [Hc Hl]. simpl.
  destruct (Ascii.eqb_spec c sep) as [->|_]; [done|]. by rewrite (IH Hl).
Qed.

(** ** The lines of a table of instances *)

Lemma append_empty_r (s : string) : s +:+ "" = s.
Proof.
  induction s as [|c s IH]; [done|].
  change (String c (s +:+ "") = String c s). by rewrite IH.
Qed.

Lemma word_append_nonempty (t s : string) : t ≠ "" → t +:+ s ≠ "".
Proof. by destruct t. Qed.

Lemma append_nonempty_r (a s : string) : s ≠ "" → a +:+ s ≠ "".
Proof. by destruct a. Qed.

Lemma omap_cons_Some {A B : Type} (f : A → option B) (x : A) (y : B)
    (l : list A) :
  f x = Some y → omap f (x :: l) = y :: omap f l.
Proof.
  intros Hx.
  change (omap f (x :: l))
    with (match f x with Some y => y :: omap f l | None => omap f l end).
  by rewrite Hx.
Qed.

Lemma blanks_spaces (s : string) :
  blanks s → Forall (λ c, PyStr.is_space c = true) (chars s).
Proof.
  intros Hs. eapply Forall_impl; [exact Hs|]. by intros c [? _].
Qed.

Lemma blanks_no_newline (s : string) : blanks s → "010"%char ∉ chars s.
Proof.
  intros Hs Hin. unfold blanks in Hs. rewrite Forall_forall in Hs.
  by destruct (Hs _ Hin).
Qed.

Lemma word_no_newline (t : string) :
  Forall (λ c, PyStr.is_space c = false) (chars t) → "010"%char ∉ chars t.
Proof.
  intros Ht Hin. rewrite Forall_forall in Ht. by apply Ht in Hin.
Qed.

Lemma star_token : token "*".
Proof. split; [done | by repeat constructor]. Qed.

(** *** White space at the ends *)

Lemma lstrip_spaces_app (ws s : string) :
  Forall (λ c, PyStr.is_space c = true) (chars ws) →
  PyStr.lstrip (ws +:+ s) = PyStr.lstrip s.
Proof.
  induction ws as [|c ws IH]; [done|].
  intros [Hc Hws]%Forall_cons.
  change (String c ws +:+ s) with (String c (ws +:+ s)).
  simpl. rewrite Hc. by apply IH.
Qed.

Lemma lstrip_app (a s : string) :
  PyStr.lstrip a ≠ "" → PyStr.lstrip (a +:+ s) = PyStr.lstrip a +:+ s.
Proof.
  induction a as [|c a IH]; [done|].
  change (String c a +:+ s) with (String c (a +:+ s)).
  simpl. destruct (PyStr.is_space c); [apply IH | done].
Qed.

Lemma lstrip_nonempty (a : string) :
  Exists (λ c, PyStr.is_space c = false) (chars a) → PyStr.lstrip a ≠ "".
Proof.
  induction a as [|c a IH]; [by intros ?%Exists_nil|].
  intros [Hc|Ha]%Exists_cons; simpl.
  - by rewrite Hc.
  - destruct (PyStr.is_space c); [by apply IH | done].
Qed.

Lemma lstrip_head (a : string) (c : ascii) (r : string) :
  PyStr.lstrip a = String c r → PyStr.is_space c = false.
Proof.
  induction a as [|c' a IH]; [done|]. simpl.
  destruct (PyStr.is_space c') eqn:Hc; [done|]. by intros [= <- _].
Qed.

Lemma rstrip_head (c : ascii) (r : string) :
  PyStr.is_space c = false → PyStr.rstrip (String c r) ≠ "".
Proof. intros Hc. simpl. rewrite Hc. by destruct (PyStr.rstrip r). Qed.

Lemma strip_nonempty (a : string) :
  PyStr.lstrip a ≠ "" → PyStr.rstrip (PyStr.lstrip a) ≠ "".
Proof.
  destruct (PyStr.lstrip a) as [|c r] eqn:Ha; [done|]. intros _.
  apply rstrip_head. by apply (lstrip_head a c r).
Qed.

Lemma rstrip_app_spaces (a ws : string) :
  Forall (λ c, PyStr.is_space c = true) (chars ws) →
  PyStr.rstrip (a +:+ ws) = PyStr.rstrip a.
Proof.
  intros Hws. induction a as [|c a IH]; [by apply rstrip_spaces|].
  change (String c a +:+ ws) with (String c (a +:+ ws)).
  simpl. by rewrite IH.
Qed.

Lemma lstrip_no_sep (sep : ascii) (a : string) :
  sep ∉ chars a → sep ∉ chars (PyStr.lstrip a).
Proof.
  induction a as [|c a IH]; [done|].
  intros Ha. pose proof Ha as [Hc Ha']%not_elem_of_cons. simpl.
  destruct (PyStr.is_space c); [by apply IH | done].
Qed.

Lemma rstrip_no_sep (sep : ascii) (a : string) :
  sep ∉ chars a → sep ∉ chars (PyStr.rstrip a).
Proof.
  induction a as [|c a IH]; [done|].
  intros [Hc Ha]%not_elem_of_cons. specialize (IH Ha). simpl.
  destruct (PyStr.rstrip a) as [|c' r].
  - destruct (PyStr.is_space c); [apply not_elem_of_nil|].
    apply not_elem_of_cons. split; [done | apply not_elem_of_nil].
  - apply not_elem_of_cons. by split.
Qed.

(** *** Fields *)

Lemma split_on_app (sep : ascii) (a s f : string) (fs : list string) :
  sep ∉ chars a →
  PyStr.split_on sep s = f :: fs →
  PyStr.split_on sep (a +:+ s) = (a +:+ f) :: fs.
Proof.
  intros Ha Hs. induction a as [|c a IH]; [done|].
  apply not_elem_of_cons in Ha as [Hc Ha].
  change (String c a +:+ s) with (String c (a +:+ s)).
  simpl. destruct (Ascii.eqb_spec c sep) as [->|_]; [done|].
  by rewrite (IH Ha).
Qed.

Lemma split_ws_aux_spaces (ws s : string) :
  Forall (λ c, PyStr.is_space c = true) (chars ws) →
  PyStr.split_ws_aux [] (ws +:+ s) = PyStr.split_ws_aux [] s.
Proof.
  induction ws as [|c ws IH]; [done|].
  intros [Hc Hws]%Forall_cons.
  change (String c ws +:+ s) with (String c (ws +:+ s)).
  simpl. rewrite Hc. by apply IH.
Qed.

Lemma split_ws_word_gap (t gap s : string) :
  token t → gap ≠ "" → blanks gap →
  PyStr.split_ws_aux [] (t +:+ gap +:+ s) = t :: PyStr.split_ws_aux [] s.
Proof.
  intros Ht Hne Hgap. apply blanks_spaces in Hgap.
  destruct gap as [|c gap]; [done|].
  apply Forall_cons in Hgap as [Hc Hgap].
  change (String c gap +:+ s) with (String c (gap +:+ s)).
  rewrite (split_ws_word_space t _ c Ht Hc).
  by rewrite (split_ws_aux_spaces gap s Hgap).
Qed.

(** *** One row *)

Section row.
Variable row : WslRow.
Hypothesis Hrow : well_formed_row row.

Lemma split_on_row_line (k f : string) (fs : list string) :
  PyStr.split_on "010" k = f :: fs →
  PyStr.split_on "010" (row_line row k) = row_line row f :: fs.
Proof using Hrow.
  intros Hk.
  destruct Hrow as ([[_ Hn] _] & [[_ Hs] _] & [[_ Hv] _] & _ & _ & Hlead & _
                    & [_ Hg1] & [_ Hg2] & [_ Hg3]).
  assert (Hcols : PyStr.split_on "010" (row_columns row k)
                  = row_columns row f :: fs).
  { unfold row_columns.
    apply split_on_app; [by apply word_no_newline|].
    apply split_on_app; [by apply blanks_no_newline|].
    apply split_on_app; [by apply word_no_newline|].
    apply split_on_app; [by apply blanks_no_newline|].
    apply split_on_app; [by apply word_no_newline|]. exact Hk. }
  unfold row_line, row_marked.
  apply split_on_app; [by apply blanks_no_newline|].
  destruct (wr_default row); [|exact Hcols].
  apply split_on_app; [apply word_no_newline, star_token|].
  apply split_on_app; [by apply blanks_no_newline|]. exact Hcols.
Qed.

Lemma rstrip_row_marked (k k' : string) :
  PyStr.rstrip (wr_version row +:+ k) = wr_version row +:+ k' →
  PyStr.rstrip (row_marked row k) = row_marked row k'
  ∧ row_marked row k' ≠ "".
Proof using Hrow.
  intros H5.
  destruct Hrow as ([[Hn _] _] & [[Hs _] _] & [[Hv _] _] & _).
  pose proof (rstrip_app (wr_gap_state row) _ _ H5
                (word_append_nonempty _ _ Hv)) as H4.
  pose proof (rstrip_app (wr_state row) _ _ H4
                (append_nonempty_r _ _ (word_append_nonempty _ _ Hv))) as H3.
  pose proof (rstrip_app (wr_gap_name row) _ _ H3
                (word_append_nonempty _ _ Hs)) as H2.
  pose proof (rstrip_app (wr_name row) _ _ H2
                (append_nonempty_r _ _ (word_append_nonempty _ _ Hs))) as H1.
  assert (Hne : row_columns row k' ≠ "") by (by apply word_append_nonempty).
  unfold row_marked. destruct (wr_default row); [|by split].
  split; [|done].
  apply (rstrip_app "*"); [|by apply append_nonempty_r].
  by apply rstrip_app.
Qed.

Lemma rstrip_row_line (k k' : string) :
  PyStr.rstrip (wr_version row +:+ k) = wr_version row +:+ k' →
  PyStr.rstrip (row_line row k) = row_line row k' ∧ row_line row k' ≠ "".
Proof using Hrow.
  intros H5. destruct (rstrip_row_marked k k' H5) as [Hm Hne].
  split; [by apply rstrip_app | by apply append_nonempty_r].
Qed.

Lemma row_marked_token (k : string) :
  PyStr.lstrip (row_marked row k) = row_marked row k.
Proof using Hrow.
  destruct Hrow as ([Hn _] & _).
  unfold row_marked. destruct (wr_default row).
  - apply lstrip_word, star_token.
  - by apply lstrip_word.
Qed.

Lemma strip_row_line (ws : string) :
  Forall (λ c, PyStr.is_space c = true) (chars ws) →
  PyStr.strip (row_line row ws) = row_marked row ""
  ∧ row_marked row "" ≠ "".
Proof using Hrow.
  intros Hws. unfold PyStr.strip, row_line.
  rewrite lstrip_spaces_app by (apply blanks_spaces; apply Hrow).
  rewrite row_marked_token. apply rstrip_row_marked.
  rewrite append_empty_r. apply rstrip_word_spaces; [apply Hrow | done].
Qed.

Lemma split_ws_row_marked :
  PyStr.split_ws (row_marked row "")
  = (if wr_default row then ["*"] else [])
    ++ [wr_name row; wr_state row; wr_version row].
Proof using Hrow.
  destruct Hrow as ([Hn _] & [Hs _] & [Hv _] & _ & _ & _ & _
                    & [Hg1 Hb1] & [Hg2 Hb2] & [Hg3 Hb3]).
  assert (Hcols : PyStr.split_ws_aux [] (row_columns row "")
                  = [wr_name row; wr_state row; wr_version row]).
  { unfold row_columns.
    rewrite (split_ws_word_gap (wr_name row)) by done.
    rewrite (split_ws_word_gap (wr_state row)) by done.
    by rewrite append_empty_r, split_ws_word_end. }
  unfold PyStr.split_ws, row_marked. destruct (wr_default row); [|exact Hcols].
  rewrite (split_ws_word_gap "*") by (done || apply star_token).
  by rewrite Hcols.
Qed.

Lemma instance_of_row_line (ws : string) :
  Forall (λ c, PyStr.is_space c = true) (chars ws) →
  instance_of_line (row_line row ws) = Some (wr_name row).
Proof using Hrow.
  intros Hws. destruct (strip_row_line ws Hws) as [Hstrip Hne].
  unfold instance_of_line. rewrite Hstrip. rewrite decide_False by done.
  rewrite split_ws_row_marked.
  destruct Hrow as ([[Hn Hnt] _] & _ & _ & Hname & Hstar & _).
  assert (Hstrip_name : PyStr.strip (wr_name row) = wr_name row).
  { unfold PyStr.strip. by rewrite lstrip_token, rstrip_token. }
  destruct (wr_default row); simpl.
  - rewrite Hstrip_name. by rewrite decide_True.
  - destruct (decide (Some (wr_name row) = Some "*")) as [[= Heq]|_];
      [by apply Hstar in Heq|].
    rewrite Hstrip_name. by rewrite decide_True.
Qed.

End row.

(** ** Reading back a table of instances *)

Lemma rows_rstrip (final : string) (row : WslRow) (rest : list WslRow) :
  Forall well_formed_row (row :: rest) →
  Forall (λ c, PyStr.is_space c = true) (chars final) →
  PyStr.rstrip (rows_text final (row :: rest)) = rows_trimmed (row :: rest).
Proof.
  intros Hrows Hfinal. revert row Hrows.
  induction rest as [|r2 rest IH]; intros row [Hrow Hrest]%Forall_cons.
  - change (rows_text final [row])
      with (String "010" "" +:+ row_line row (wr_trail row +:+ final)).
    change (rows_trimmed [row]) with (String "010" "" +:+ row_line row "").
    assert (H5 : PyStr.rstrip (wr_version row +:+ wr_trail row +:+ final)
                 = wr_version row +:+ "").
    { rewrite append_empty_r. apply rstrip_word_spaces; [apply Hrow|].
      rewrite chars_app. apply Forall_app. split; [|done].
      apply blanks_spaces, Hrow. }
    destruct (rstrip_row_line row Hrow _ _ H5) as [Hline Hne].
    by apply rstrip_app.
  - change (rows_text final (row :: r2 :: rest))
      with (String "010" ""
            +:+ row_line row (wr_trail row +:+ rows_text final (r2 :: rest))).
    change (rows_trimmed (row :: r2 :: rest))
      with (String "010" ""
            +:+ row_line row (wr_trail row +:+ rows_trimmed (r2 :: rest))).
    specialize (IH r2 Hrest).
    assert (Hne2 : rows_trimmed (r2 :: rest) ≠ "") by done.
    assert (H5 : PyStr.rstrip
                   (wr_version row +:+ wr_trail row
                    +:+ rows_text final (r2 :: rest))
                 = wr_version row +:+ wr_trail row
                   +:+ rows_trimmed (r2 :: rest)).
    { apply rstrip_app; [|by apply append_nonempty_r].
      by apply rstrip_app. }
    destruct (rstrip_row_line row Hrow _ _ H5) as [Hline Hne].
    by apply rstrip_app.
Qed.

Lemma rows_split (row : WslRow) (rest : list WslRow) (text : string) :
  Forall well_formed_row (row :: rest) →
  rows_trimmed (row :: rest) = String "010" text →
  PyStr.split_on "010" text = rows_lines (row :: rest).
Proof.
  revert row text.
  induction rest as [|r2 rest IH]; intros row text [Hrow Hrest]%Forall_cons.
  - intros [= <-]. by apply split_on_row_line.
  - intros [= <-]. apply split_on_row_line; [done|].
    change (rows_trimmed (r2 :: rest))
      with (String "010"
              (row_line r2 (match rest with
                            | [] => ""
                            | _ => wr_trail r2 +:+ rows_trimmed rest
                            end))).
    rewrite split_on_line by (apply blanks_no_newline, Hrow).
    f_equal. by apply IH.
Qed.

Lemma rows_read (rows : list WslRow) :
  Forall well_formed_row rows →
  omap instance_of_line (rows_lines rows) = wr_name <$> rows.
Proof.
  induction rows as [|row rest IH]; [done|].
  intros [Hrow Hrest]%Forall_cons.
  change (rows_lines (row :: rest))
    with (row_line row (match rest with [] => "" | _ => wr_trail row end)
          :: rows_lines rest).
  rewrite (omap_cons_Some _ _ (wr_name row)).
  - by rewrite fmap_cons, IH.
  - apply instance_of_row_line; [done|].
    destruct rest; [constructor | apply blanks_spaces, Hrow].
Qed.

(** X13. Reading back a table of instances. Take a text whose first line
    holds ASCII characters, one of them not white space, and whose other
    lines are rows: an optional star, a name, a state and a version, which
    are words of ASCII characters without white space, the name being
    neither NAME nor the star; any white space other than a line feed
    before the row, after it, and (at least one character) between its
    columns; and any white space at the end of the text. From such a text
    [get_wsl_instances] returns exactly the names of the rows, in order. *)
Theorem listing_round_trip (header final : string) (rows : list WslRow) :
  "010"%char ∉ chars header →
  Forall (λ c, (nat_of_ascii c < 128)%nat) (chars header) →
  Exists (λ c, PyStr.is_space c = false) (chars header) →
  Forall well_formed_row rows →
  Forall (λ c, PyStr.is_space c = true) (chars final) →
  get_wsl_instances 0 (listing_text header final rows) = wr_name <$> rows.
Proof.
  intros Hnl _ Hword%lstrip_nonempty Hrows Hfinal.
  unfold get_wsl_instances, listing_text, PyStr.strip. simpl negb. cbv iota.
  rewrite lstrip_app by done.
  destruct rows as [|row rest].
  - change (rows_text final []) with final.
    rewrite rstrip_app_spaces by done.
    by rewrite split_on_last by (by apply rstrip_no_sep, lstrip_no_sep).
  - rewrite (rstrip_app _ _ (rows_trimmed (row :: rest)));
      [|by apply rows_rstrip|done].
    change (rows_trimmed (row :: rest))
      with (String "010"
              (row_line row (match rest with
                             | [] => ""
                             | _ => wr_trail row +:+ rows_trimmed rest
                             end))).
    rewrite split_on_line by (by apply lstrip_no_sep).
    cbn [tail].
    rewrite <- (rows_read (row :: rest)) by done.
    f_equal. by apply rows_split.
Qed.

Lemma listing_round_trip_witness :
  get_wsl_instances 0 wsl_listing = ["Ubuntu"; "Debian"].
Proof.
  change wsl_listing
    with (listing_text
            ("  NAME      STATE           VERSION" +:+ String "013" "")
            (String "013" (String "010" "")) sample_rows).
  rewrite listing_round_trip.
  - reflexivity.
  - apply (bool_decide_unpack _). vm_compute. exact I.
  - apply (bool_decide_unpack _). vm_compute. exact I.
  - apply (bool_decide_unpack _). vm_compute. exact I.
  - repeat constructor; try discriminate.
  - repeat constructor.
Defined.

(** ** The label and the stored row *)

Lemma is_space_lower (c : ascii) :
  PyStr.is_space (PyStr.lower_char c) = PyStr.is_space c.
Proof. destruct c as [[] [] [] [] [] [] [] []]; reflexivity. Qed.

Lemma lower_lstrip (s : string) :
  PyStr.lower (PyStr.lstrip s) = PyStr.lstrip (PyStr.lower s).
Proof.
  induction s as [|c s IH]; [done|]. simpl. rewrite is_space_lower.
  by destruct (PyStr.is_space c).
Qed.

Lemma lower_rstrip (s : string) :
  PyStr.lower (PyStr.rstrip s) = PyStr.rstrip (PyStr.lower s).
Proof.
  induction s as [|c s IH]; [done|]. simpl. rewrite <- IH, is_space_lower.
  destruct (PyStr.rstrip s); simpl; [destruct (PyStr.is_space c); reflexivity | done].
Qed.

Lemma lower_strip (s : string) :
  PyStr.lower (PyStr.strip s) = PyStr.strip (PyStr.lower s).
Proof. unfold PyStr.strip. by rewrite lower_rstrip, lower_lstrip. Qed.

Lemma word_not_space (a c : ascii) :
  PyStr.is_space a = false → PyStr.is_space c = true → Ascii.eqb a c = false.
Proof.
  intros Ha Hc. destruct (Ascii.eqb_spec a c) as [->|]; [congruence | done].
Qed.

Lemma contains_lstrip (tok s : string) :
  token tok → PyStr.contains tok (PyStr.lstrip s) = PyStr.contains tok s.
Proof.
  intros [Hne Htok]. destruct tok as [|a tok]; [done|].
  apply Forall_cons in Htok as [Ha _].
  induction s as [|c s IH]; [done|].
  cbn [PyStr.lstrip]. destruct (PyStr.is_space c) eqn:Hc; [|done].
  rewrite IH. cbn [PyStr.contains PyStr.startswith].
  by rewrite (word_not_space a c Ha Hc).
Qed.

Lemma startswith_rstrip (tok s : string) :
  Forall (λ c, PyStr.is_space c = false) (chars tok) →
  PyStr.startswith tok (PyStr.rstrip s) = PyStr.startswith tok s.
Proof.
  revert tok. induction s as [|c s IH]; intros tok Htok; [done|].
  destruct tok as [|a tok]; [done|].
  apply Forall_cons in Htok as [Ha Htok].
  cbn [PyStr.rstrip]. specialize (IH tok Htok).
  destruct (PyStr.rstrip s) as [|d r].
  - destruct (PyStr.is_space c) eqn:Hc; cbn [PyStr.startswith].
    + by rewrite (word_not_space a c Ha Hc).
    + by rewrite <- IH.
  - cbn [PyStr.startswith]. by rewrite <- IH.
Qed.

Lemma contains_rstrip (tok s : string) :
  token tok → PyStr.contains tok (PyStr.rstrip s) = PyStr.contains tok s.
Proof.
  intros [Hne Htok]. induction s as [|c s IH]; [done|].
  pose proof (startswith_rstrip tok (String c s) Htok) as Hstart.
  cbn [PyStr.rstrip] in *.
  destruct (PyStr.rstrip s) as [|d r].
  - destruct (PyStr.is_space c) eqn:Hc.
    + assert (Hs0 : PyStr.startswith tok "" = false) by (by destruct tok).
      cbn [PyStr.contains] in *. rewrite <- Hstart, <- IH, Hs0. reflexivity.
    + cbn [PyStr.contains] in *. by rewrite <- Hstart, <- IH.
  - cbn [PyStr.contains] in *. by rewrite <- Hstart, <- IH.
Qed.

Lemma contains_lower_strip (tok line : string) :
  token tok →
  PyStr.contains tok (PyStr.lower (PyStr.strip line))
  = PyStr.contains tok (PyStr.lower line).
Proof.
  intros Htok. rewrite lower_strip. unfold PyStr.strip.
  by rewrite contains_rstrip, contains_lstrip.
Qed.

Lemma identify_service_strip (port : Z) (line : string) :
  identify_service port (PyStr.strip line) = identify_service port line.
Proof.
  unfold identify_service. destruct (common_ports !! port); [done|].
  cbn zeta.
  rewrite !contains_lower_strip;
    [done | split; [done | by repeat constructor]..].
Qed.

(** X14. The row stored in a record is enough to compute its label again:
    for every record of a scan result, classifying the record's port with
    its stored, stripped row gives the record's label, although the label
    was computed from the row before stripping. *)
Theorem label_from_raw_line (instance : string) (result : CompletedProcess)
    (r : PortInfo) :
  r ∈ ii_ports (scan_instance_ports instance result) →
  pi_service_type r = identify_service (pi_port r) (pi_raw_line r).
Proof.
  intros (line & _ & Hparse)%scan_ports_parsed.
  apply parse_line_inv in Hparse
    as (local_addr & addr & port_str & _ & _ & _ & _ & _ & ->).
  cbn [pi_service_type pi_port pi_raw_line].
  by rewrite identify_service_strip.
Qed.

Lemma label_from_raw_line_witness :
  ∃ r, r ∈ ii_ports (scan_instance_ports "Ubuntu" (ok [nginx_row "8443"]))
       ∧ pi_service_type r = "HTTP"
       ∧ identify_service (pi_port r) (pi_raw_line r) = "HTTP".
Proof.
  eexists. split; [vm_compute; apply list_elem_of_here|].
  split; [reflexivity|].
  rewrite <- (label_from_raw_line "Ubuntu" (ok [nginx_row "8443"])).
  - reflexivity.
  - vm_compute. apply list_elem_of_here.
Defined.

(** ** The configuration and the scan results *)

Lemma internal_port_of_config (m : Mapping) :
  match PyDict.get "internal_port" (port_config_of m),
        PyDict.get "port" (port_config_of m) with
  | Some (JInt n), _ => Some n
  | None, Some (JInt n) => Some n
  | _, _ => None
  end = Some (m_internal_port m).
Proof.
  unfold port_config_of. case_decide as Heq; [|reflexivity].
  cbn. by rewrite Heq.
Qed.

Lemma config_view_row (name : string) (ms : list Mapping) :
  config_view (instance_config_of (name, ms))
  = (name,
     "Auto-discovered WSL2 instance with "
     +:+ PyStr.of_int (Z.of_nat (length ms)) +:+ " services",
     m_internal_port <$> ms).
Proof.
  unfold config_view, instance_config_of. cbn [ic_name ic_comment ic_ports fst snd].
  rewrite length_fmap. f_equal.
  induction ms as [|m ms IH]; [done|].
  rewrite !fmap_cons. erewrite omap_cons_Some; [|apply internal_port_of_config].
  by rewrite IH.
Qed.

(** X15. When the accessible instances have distinct names, the
    configuration lists the accessible instances in enumeration order; the
    entry of an instance has one port entry per record, in scan order, from
    which the internal port of the record can be read (the [internal_port]
    field, or the [port] field when that one is left out), and its comment
    states the number of records. *)
Theorem config_follows_scan (all_instances : list InstanceInfo) :
  NoDup (ii_instance <$> reachable all_instances) →
  config_view <$> instances (build_config all_instances)
  = (λ info, (ii_instance info,
              "Auto-discovered WSL2 instance with "
              +:+ PyStr.of_int (Z.of_nat (length (ii_ports info)))
              +:+ " services",
              pi_port <$> ii_ports info)) <$> reachable all_instances.
Proof.
  intros Hnd. unfold build_config. cbn [instances].
  rewrite assign_external_ports_plan by done. rewrite <- plan_rows_reachable.
  clear Hnd. generalize initial_state. unfold reachable.
  induction all_instances as [|info rest IH]; intros st; [done|]. simpl.
  destruct (ii_accessible info) eqn:Hacc.
  - rewrite filter_cons_True by done. rewrite !fmap_cons.
    rewrite config_view_row, emitted_length. f_equal.
    + f_equal. generalize (enter st (ii_instance info)).
      induction (ii_ports info) as [|r ports IHp]; intros st'; [done|].
      simpl. by rewrite IHp.
    + apply IH.
  - rewrite filter_cons_False by congruence. apply IH.
Qed.

Lemma config_follows_scan_witness :
  (λ v, (v.1.1, v.2)) <$> (config_view <$> instances (build_config dev_clash))
  = [("Ubuntu", [9001; 3000]); ("Alpine", [22])].
Proof.
  rewrite (config_follows_scan dev_clash).
  - reflexivity.
  - apply (bool_decide_unpack _). vm_compute. exact I.
Defined.

(** X16. The classifier returns one of twenty-four labels, whatever the
    port and the row. *)
Theorem identify_service_known (port : Z) (line : string) :
  identify_service port line ∈ known_labels.
Proof.
  rewrite identify_service_layers.
  assert (Hsub : ∀ (l : list string) x, x ∈ l → l ⊆ known_labels → x ∈ known_labels)
    by (intros l x Hx Hl; by apply Hl).
  destruct (common_ports !! port) as [label|] eqn:Htable.
  - apply common_ports_inv in Htable.
    repeat (apply elem_of_cons in Htable as [[= -> ->]|Htable];
            [apply (bool_decide_unpack _); vm_compute; exact I|]).
    by apply elem_of_nil in Htable.
  - destruct (text_hint line) as [label|] eqn:Hhint; simpl.
    + apply text_hint_labels in Hhint.
      repeat (apply elem_of_cons in Hhint as [->|Hhint];
              [apply (bool_decide_unpack _); vm_compute; exact I|]).
      by apply elem_of_nil in Hhint.
    + unfold range_guess, range_rules. simpl.
      repeat (case_match; simpl);
        apply (bool_decide_unpack _); vm_compute; exact I.
Qed.

(** ** A lower bound on the external ports *)

Lemma external_port_of_bound (st : AllocState) (r : PortInfo) :
  (∀ rule, counter_of rule initial_counters ≤ counter_of rule (counters st)) →
  2201 ≤ external_port_of st r
  ∧ (takes_fallback r → 9000 ≤ external_port_of st r).
Proof.
  intros Hc. unfold external_port_of, takes_fallback.
  destruct (select_rule _ _) eqn:Hrule;
    try (pose proof (Hc (select_rule (pi_service_type r) (pi_port r))) as Hb;
         rewrite Hrule in Hb; simpl in *; split; [lia | done]).
  simpl.
  destruct (next_free_spec (used_external_ports st) (9000 + pi_port r mod 1000))
    as (_ & Hle & _).
  pose proof (Z.mod_pos_bound (pi_port r) 1000). split; [lia | intros _; lia].
Qed.

Lemma assign_port_bounded (instance : string) (st : AllocState) (r : PortInfo) :
  ports_bounded st → ports_bounded (assign_port instance st r).
Proof.
  intros [Hc Hp]. split.
  - intros rule. unfold assign_port. cbn [counters].
    specialize (Hc rule). destruct rule;
      destruct (select_rule (pi_service_type r) (pi_port r)); simpl in *; lia.
  - unfold assign_port. cbn [port_assignments].
    apply dict_values_update_Forall; [|done].
    intros ms Hms. apply Forall_app. split; [done|].
    apply Forall_cons. split; [|constructor].
    exact (external_port_of_bound st r Hc).
Qed.

Lemma assign_instance_bounded (st : AllocState) (info : InstanceInfo) :
  ports_bounded st → ports_bounded (assign_instance st info).
Proof.
  intros Hst. destruct (ii_accessible info) eqn:Hacc;
    [|now rewrite assign_instance_inaccessible].
  rewrite assign_instance_accessible by done.
  assert (Henter : ports_bounded (enter st (ii_instance info))).
  { destruct Hst as [Hc Hp]. split; [done|].
    unfold enter. cbn [port_assignments]. by apply dict_values_set_Forall. }
  revert Henter. generalize (enter st (ii_instance info)).
  induction (ii_ports info) as [|r ports IH]; intros st' Hst'; simpl; [done|].
  by apply IH, assign_port_bounded.
Qed.

(** X17. Whatever the input, no mapping of the plan has an external port
    below 2201, and the mapping of a record that takes the last branch of
    the chain has an external port of 9000 or more. *)
Theorem external_ports_bounded (all_instances : list InstanceInfo)
    (name : string) (ms : list Mapping) (m : Mapping) :
  (name, ms) ∈ (assign_external_ports all_instances).1 → m ∈ ms →
  2201 ≤ m_port m ∧ (rule_of_mapping m = RuleOther → 9000 ≤ m_port m).
Proof.
  intros Hrow Hm.
  assert (Hall : ports_bounded (foldl assign_instance initial_state all_instances)).
  { clear Hrow Hm.
    assert (Hinit : ports_bounded initial_state)
      by (split; [done | constructor]).
    revert Hinit. generalize initial_state.
    induction all_instances as [|info rest IH]; intros st Hst; simpl; [done|].
    by apply IH, assign_instance_bounded. }
  destruct Hall as [_ Hall]. rewrite Forall_forall in Hall.
  specialize (Hall ms). rewrite Forall_forall in Hall. apply Hall; [|done].
  unfold PyDict.values. apply list_elem_of_fmap. by exists (name, ms).
Qed.

Lemma external_ports_bounded_witness :
  2201 ≤ m_port (mapping_of "Alpine" (record 22 "SSH") 2201).
Proof.
  apply (external_ports_bounded dev_clash "Alpine"
           [mapping_of "Alpine" (record 22 "SSH") 2201]
           (mapping_of "Alpine" (record 22 "SSH") 2201)).
  - vm_compute. apply list_elem_of_further, list_elem_of_here.
  - apply list_elem_of_here.
Defined.
